(** * madridFines: the disk cache ([cache.py]) and the URL cache ([cacheUrl.py])

    A shallow embedding of [madridFines.cache.Cache] and
    [madridFines.cacheUrl.CacheUrl] together with the parts of the Python
    runtime they rely on: [pathlib] path joining, the POSIX file operations
    behind [open], [Path.exists], [Path.stat], [Path.unlink], [Path.iterdir]
    and [Path.mkdir], text-mode reading, [hashlib.md5] and [requests.get].

    Conventions.
    - A Python [str] is represented by the bytes of its UTF-8 encoding (a Rocq
      [string]), so [url.encode("utf-8")] is the list of bytes of the string.
      The characters the code inspects (slash, carriage return, line feed) are
      single bytes in UTF-8 and never occur inside a multi-byte sequence.
      Every text of the model can therefore be encoded: a [str] with a lone
      surrogate, for which [f.write] raises [UnicodeEncodeError], has no
      counterpart.
    - Python exceptions are values of [exn]; an operation is a function from
      the state of the world to an outcome and the new state, and the state
      reached when an exception is raised is kept.
    - [time.time()] and file time stamps are rational numbers of seconds; the
      rounding of floating-point arithmetic is not modelled.
    - The file system is a finite map from locations to regular files and
      directories, each with its creation and modification time; paths are
      POSIX paths and the library is pathlib of Python 3.11. A path with a
      NUL character is refused by Python ([ValueError]); a path of
      [PATH_MAX] bytes or more, or with a name of more than [NAME_MAX]
      bytes, by the operating system ([ENAMETOOLONG]), with the limits of
      Linux. Symbolic links, permissions and failures of the device are
      not modelled, so [open] is the only step of [set] that can fail: a
      [write] that failed would leave the file that [open] has created or
      truncated. The time stamps of a directory are those of its
      creation. *)

From Stdlib Require Import ZArith QArith Lqa String Ascii List DecimalString.
From stdpp Require Import gmap strings list fin_maps.

Local Open Scope string_scope.
Local Open Scope list_scope.

(** ** [hashlib.md5]: RFC 1321 on lists of bytes *)

Module MD5.
Local Open Scope Z_scope.

Definition mask32 (x : Z) : Z := Z.land x 0xFFFFFFFF.
Definition not32 (x : Z) : Z := Z.lxor (mask32 x) 0xFFFFFFFF.
Definition rotl32 (x c : Z) : Z :=
  mask32 (Z.lor (Z.shiftl x c) (Z.shiftr (mask32 x) (32 - c))).

Definition S_table : list Z :=
  [7; 12; 17; 22; 7; 12; 17; 22; 7; 12; 17; 22; 7; 12; 17; 22;
   5; 9; 14; 20; 5; 9; 14; 20; 5; 9; 14; 20; 5; 9; 14; 20;
   4; 11; 16; 23; 4; 11; 16; 23; 4; 11; 16; 23; 4; 11; 16; 23;
   6; 10; 15; 21; 6; 10; 15; 21; 6; 10; 15; 21; 6; 10; 15; 21].

Definition K_table : list Z :=
  [0xd76aa478; 0xe8c7b756; 0x242070db; 0xc1bdceee;
   0xf57c0faf; 0x4787c62a; 0xa8304613; 0xfd469501;
   0x698098d8; 0x8b44f7af; 0xffff5bb1; 0x895cd7be;
   0x6b901122; 0xfd987193; 0xa679438e; 0x49b40821;
   0xf61e2562; 0xc040b340; 0x265e5a51; 0xe9b6c7aa;
   0xd62f105d; 0x02441453; 0xd8a1e681; 0xe7d3fbc8;
   0x21e1cde6; 0xc33707d6; 0xf4d50d87; 0x455a14ed;
   0xa9e3e905; 0xfcefa3f8; 0x676f02d9; 0x8d2a4c8a;
   0xfffa3942; 0x8771f681; 0x6d9d6122; 0xfde5380c;
   0xa4beea44; 0x4bdecfa9; 0xf6bb4b60; 0xbebfbc70;
   0x289b7ec6; 0xeaa127fa; 0xd4ef3085; 0x04881d05;
   0xd9d4d039; 0xe6db99e5; 0x1fa27cf8; 0xc4ac5665;
   0xf4292244; 0x432aff97; 0xab9423a7; 0xfc93a039;
   0x655b59c3; 0x8f0ccc92; 0xffeff47d; 0x85845dd1;
   0x6fa87e4f; 0xfe2ce6e0; 0xa3014314; 0x4e0811a1;
   0xf7537e82; 0xbd3af235; 0x2ad7d2bb; 0xeb86d391].

Definition zth (l : list Z) (i : Z) : Z := nth (Z.to_nat i) l 0.

(** The four bytes of a 32-bit word and the eight bytes of a 64-bit length,
    least significant byte first. *)
Definition le_bytes (n : nat) (x : Z) : list Z :=
  map (fun i => Z.land (Z.shiftr x (8 * Z.of_nat i)) 0xFF) (seq 0 n).

Definition pad (msg : list Z) : list Z :=
  let len := Z.of_nat (length msg) in
  msg ++ [0x80] ++ repeat 0 (Z.to_nat ((55 - len) mod 64))
      ++ le_bytes 8 (Z.land (8 * len) 0xFFFFFFFFFFFFFFFF).

Fixpoint words_le (bs : list Z) : list Z :=
  match bs with
  | b0 :: b1 :: b2 :: b3 :: rest =>
      (b0 + Z.shiftl b1 8 + Z.shiftl b2 16 + Z.shiftl b3 24) :: words_le rest
  | _ => []
  end.

Fixpoint blocks (fuel : nat) (ws : list Z) : list (list Z) :=
  match fuel, ws with
  | S fuel', _ :: _ => firstn 16 ws :: blocks fuel' (skipn 16 ws)
  | _, _ => []
  end.

Definition state : Type := Z * Z * Z * Z.

Definition init : state := (0x67452301, 0xefcdab89, 0x98badcfe, 0x10325476).

Definition step (M : list Z) (st : state) (i : Z) : state :=
  let '(A, B, C, D) := st in
  let '(F, g) :=
    if i <? 16 then (Z.lor (Z.land B C) (Z.land (not32 B) D), i)
    else if i <? 32 then (Z.lor (Z.land D B) (Z.land (not32 D) C), (5 * i + 1) mod 16)
    else if i <? 48 then (Z.lxor (Z.lxor B C) D, (3 * i + 5) mod 16)
    else (Z.lxor C (Z.lor B (not32 D)), (7 * i) mod 16) in
  let F' := mask32 (F + A + zth K_table i + zth M g) in
  (D, mask32 (B + rotl32 F' (zth S_table i)), B, C).

Definition compress (st : state) (M : list Z) : state :=
  let '(a0, b0, c0, d0) := st in
  let '(A, B, C, D) := fold_left (step M) (map Z.of_nat (seq 0 64)) st in
  (mask32 (a0 + A), mask32 (b0 + B), mask32 (c0 + C), mask32 (d0 + D)).

(** The 16 bytes of [hashlib.md5(msg).digest()]. *)
Definition digest (msg : list Z) : list Z :=
  let ws := words_le (pad msg) in
  let '(a, b, c, d) := fold_left compress (blocks (length ws) ws) init in
  le_bytes 4 a ++ le_bytes 4 b ++ le_bytes 4 c ++ le_bytes 4 d.

Definition hex_digits : list ascii :=
  ["0"; "1"; "2"; "3"; "4"; "5"; "6"; "7"; "8"; "9"; "a"; "b"; "c"; "d"; "e"; "f"]%char.

Definition hex_digit (n : Z) : ascii := nth (Z.to_nat (n mod 16)) hex_digits "0"%char.

Fixpoint hex (bs : list Z) : string :=
  match bs with
  | [] => EmptyString
  | b :: rest => String (hex_digit (b / 16)) (String (hex_digit b) (hex rest))
  end.

Definition bytes_of_string (s : string) : list Z :=
  map (fun a => Z.of_N (N_of_ascii a)) (list_ascii_of_string s).

(** [hashlib.md5(s.encode("utf-8")).hexdigest()] *)
Definition hexdigest (s : string) : string := hex (digest (bytes_of_string s)).

End MD5.

(** ** Strings and [pathlib] paths *)

Definition slash : ascii := "/"%char.
Definition NUL : ascii := ascii_of_nat 0.
Definition CR : ascii := ascii_of_nat 13.
Definition LF : ascii := ascii_of_nat 10.
Definition dot : string := ".".
Definition dotdot : string := "..".

(** [s.split("/")] *)
Fixpoint split_slash (s : string) : list string :=
  match s with
  | EmptyString => [EmptyString]
  | String a s' =>
      if Ascii.eqb a slash then EmptyString :: split_slash s'
      else match split_slash s' with
           | [] => [String a EmptyString]
           | w :: ws => String a w :: ws
           end
  end.

Definition kept_part (part : string) : bool :=
  negb (String.eqb part EmptyString) && negb (String.eqb part dot).

(** The components pathlib keeps when it parses a string: empty components
    and [.] are dropped, [..] is kept. *)
Definition parts (s : string) : list string := List.filter kept_part (split_slash s).

Definition is_absolute (s : string) : bool :=
  match s with
  | String a _ => Ascii.eqb a slash
  | EmptyString => false
  end.

(** A [Path] is the list of its components below the root; every path of the
    model is absolute (a relative one is taken as already joined to the
    working directory). *)
Abbreviation Path := (list string) (only parsing).

(** [p / s]: a segment that is absolute replaces the path to its left. *)
Definition joinpath (p : Path) (s : string) : Path :=
  if is_absolute s then parts s else p ++ parts s.

Notation "p </> s" := (joinpath p s) (at level 40, left associativity).

(** What reading in text mode with the default [newline=None] does to the
    stored characters: every [\r\n] and every remaining [\r] becomes [\n]. *)
Fixpoint universal_newlines (s : string) : string :=
  match s with
  | EmptyString => EmptyString
  | String a s' =>
      if Ascii.eqb a CR then
        match s' with
        | String b s'' =>
            if Ascii.eqb b LF then String LF (universal_newlines s'')
            else String LF (universal_newlines s')
        | EmptyString => String LF EmptyString
        end
      else String a (universal_newlines s')
  end.

(** ** The world outside the program: files, clock, network *)

Record stat_result := { st_birthtime : Q; st_mtime : Q }.

Inductive node :=
  | File (data : string) (st : stat_result)
  | Dir (st : stat_result).

(** The location of a node: its name followed by the names of its ancestors
    up to the root, which is [[]]. Locations contain neither [.] nor [..]. *)
Abbreviation loc := (list string) (only parsing).

Record World := {
  files : gmap (list string) node;
  clock : Q;                 (* what [time.time()] returns *)
  has_birthtime : bool;      (* whether [os.stat_result] has [st_birthtime] *)
  sent : list string         (* the URLs requested so far, latest first *)
}.

Definition with_files (fs : gmap (list string) node) (w : World) : World :=
  {| files := fs; clock := clock w; has_birthtime := has_birthtime w; sent := sent w |}.

Definition with_sent (l : list string) (w : World) : World :=
  {| files := files w; clock := clock w; has_birthtime := has_birthtime w; sent := l |}.

Definition with_clock (t : Q) (w : World) : World :=
  {| files := files w; clock := t; has_birthtime := has_birthtime w; sent := sent w |}.

Inductive errno := ENOENT | ENOTDIR | EISDIR | EEXIST | ENAMETOOLONG.

Inductive exn :=
  | CacheError (args : list string)
  | OSError (e : errno)
  | ValueError                   (* embedded null byte *)
  | AttributeError
  | RequestException             (* the request itself failed *)
  | HTTPError (status : Z).      (* raised by [raise_for_status] *)

Inductive outcome (A : Type) :=
  | Return (a : A)
  | Raise (e : exn).
Arguments Return {A} a.
Arguments Raise {A} e.

(** Computations that read and change the world and may raise. *)
Definition M (A : Type) : Type := World -> outcome A * World.

Definition ret {A} (a : A) : M A := fun w => (Return a, w).
Definition raise {A} (e : exn) : M A := fun w => (Raise e, w).
Definition bind {A B} (m : M A) (k : A -> M B) : M B :=
  fun w => match m w with
           | (Return a, w') => k a w'
           | (Raise e, w') => (Raise e, w')
           end.
Definition try_except {A} (m : M A) (handler : exn -> M A) : M A :=
  fun w => match m w with
           | (Return a, w') => (Return a, w')
           | (Raise e, w') => handler e w'
           end.

Notation "'let*' x ':=' m 'in' k" := (bind m (fun x => k))
  (at level 10, x name, m at level 200, k at level 200).
Notation "m '>>' k" := (bind m (fun _ => k))
  (at level 90, right associativity).

Fixpoint for_each {A} (l : list A) (body : A -> M unit) : M unit :=
  match l with
  | [] => ret tt
  | x :: rest => body x >> for_each rest body
  end.

(** *** Path resolution *)

(** The limits of Linux: a name has at most [NAME_MAX] bytes, and a path,
    with its terminating NUL, at most [PATH_MAX]. *)
Definition NAME_MAX : Z := 255.
Definition PATH_MAX : Z := 4096.

Fixpoint has_NUL (s : string) : bool :=
  match s with
  | EmptyString => false
  | String a s' => Ascii.eqb a NUL || has_NUL s'
  end.

Definition name_too_long (c : string) : bool :=
  (NAME_MAX <? Z.of_nat (String.length c))%Z.

(** The number of bytes of [str(p)]: a slash in front of every component,
    and [/] for the root. *)
Fixpoint path_length (p : Path) : Z :=
  match p with
  | [] => 0
  | c :: p' => (1 + Z.of_nat (String.length c) + path_length p')%Z
  end.

Definition str_length (p : Path) : Z := Z.max 1 (path_length p).

(** Follow the components [cs] from the directory at [cur]. Every directory
    that is entered must exist; [..] leads to the parent, and the parent of
    the root is the root; a name of more than [NAME_MAX] bytes is refused
    by the directory it is looked up in. The last component is not looked
    up. *)
Fixpoint walk (fs : gmap (list string) node) (cur : loc) (cs : Path) : errno + loc :=
  match cs with
  | [] => inr cur
  | c :: cs' =>
      match fs !! cur with
      | Some (Dir _) =>
          if String.eqb c dotdot then walk fs (tail cur) cs'
          else if name_too_long c then inl ENAMETOOLONG
          else walk fs (c :: cur) cs'
      | Some (File _ _) => inl ENOTDIR
      | None => inl ENOENT
      end
  end.

(** What a system call of Python does with a path before the file system
    is looked at: Python refuses a NUL character, the kernel a path that
    does not fit into [PATH_MAX] bytes. *)
Definition path_error (p : Path) : option exn :=
  if existsb has_NUL p then Some ValueError
  else if (PATH_MAX <=? str_length p)%Z then Some (OSError ENAMETOOLONG)
  else None.

Definition resolve (w : World) (p : Path) : exn + loc :=
  match path_error p with
  | Some e => inl e
  | None =>
      match walk (files w) [] p with
      | inl e => inl (OSError e)
      | inr q => inr q
      end
  end.

Definition is_dir_at (fs : gmap (list string) node) (q : loc) : bool :=
  match fs !! q with
  | Some (Dir _) => true
  | _ => false
  end.

(** A new entry can be made at [q] when [q] is not the root and its parent
    is a directory. *)
Definition can_create (fs : gmap (list string) node) (q : loc) : bool :=
  match q with
  | [] => false
  | _ :: parent => is_dir_at fs parent
  end.

Definition node_stat (n : node) : stat_result :=
  match n with
  | File _ st => st
  | Dir st => st
  end.

Definition now_stamp (w : World) : stat_result :=
  {| st_birthtime := clock w; st_mtime := clock w |}.

(** *** The operating system calls the cache makes *)

(** [os.stat(p)] *)
Definition os_stat (p : Path) : M node := fun w =>
  match resolve w p with
  | inl e => (Raise e, w)
  | inr q =>
      match files w !! q with
      | Some n => (Return n, w)
      | None => (Raise (OSError ENOENT), w)
      end
  end.

(** [pathlib._ignore_error]: the errors that mean that the path names
    nothing ([EBADF] and [ELOOP], also in the list, do not arise here). *)
Definition ignore_error (e : errno) : bool :=
  match e with
  | ENOENT | ENOTDIR => true
  | _ => false
  end.

(** The handlers of [Path.exists] and [Path.is_dir]: an [OSError] that is
    not ignored is raised again, a [ValueError] means no. *)
Definition missing_path (e : exn) : M bool :=
  match e with
  | OSError en => if ignore_error en then ret false else raise e
  | ValueError => ret false
  | _ => raise e
  end.

(** [p.exists()] *)
Definition Path_exists (p : Path) : M bool :=
  try_except (os_stat p >> ret true) missing_path.

(** [p.is_dir()] *)
Definition Path_is_dir (p : Path) : M bool :=
  try_except (let* n := os_stat p in ret (match n with Dir _ => true | File _ _ => false end))
             missing_path.

(** [p.stat()] *)
Definition Path_stat (p : Path) : M stat_result :=
  let* n := os_stat p in ret (node_stat n).

(** The attribute [st_birthtime] of a stat result. *)
Definition get_st_birthtime (st : stat_result) : M Q := fun w =>
  if has_birthtime w then (Return (st_birthtime st), w) else (Raise AttributeError, w).

(** [open(p, 'w')]: the file is created, or truncated when it exists (its
    creation time is then kept); the open file is known by its location. *)
Definition open_w (p : Path) : M loc := fun w =>
  match resolve w p with
  | inl e => (Raise e, w)
  | inr q =>
      match files w !! q with
      | Some (Dir _) => (Raise (OSError EISDIR), w)
      | Some (File _ st) =>
          (Return q,
           with_files (<[q := File EmptyString {| st_birthtime := st_birthtime st;
                                                  st_mtime := clock w |}]> (files w)) w)
      | None =>
          if can_create (files w) q
          then (Return q, with_files (<[q := File EmptyString (now_stamp w)]> (files w)) w)
          else (Raise (OSError ENOENT), w)
      end
  end.

(** [f.write(data)] and the [close] at the end of the [with] block: the
    characters are added to the file. On POSIX the line separator is [\n],
    so writing does not change them. *)
Definition f_write (f : loc) (data : string) : M unit := fun w =>
  match files w !! f with
  | Some (File d st) =>
      (Return tt,
       with_files (<[f := File (String.append d data)
                             {| st_birthtime := st_birthtime st;
                                st_mtime := clock w |}]> (files w)) w)
  | _ => (Return tt, w)
  end.

(** [with open(p, 'w') as f: f.write(data)] *)
Definition write_text (p : Path) (data : string) : M unit :=
  let* f := open_w p in
  f_write f data.

(** [with open(p) as f: return f.read()] *)
Definition read_text (p : Path) : M string := fun w =>
  match resolve w p with
  | inl e => (Raise e, w)
  | inr q =>
      match files w !! q with
      | Some (File data _) => (Return (universal_newlines data), w)
      | Some (Dir _) => (Raise (OSError EISDIR), w)
      | None => (Raise (OSError ENOENT), w)
      end
  end.

(** [p.unlink()] *)
Definition Path_unlink (p : Path) : M unit := fun w =>
  match resolve w p with
  | inl e => (Raise e, w)
  | inr q =>
      match files w !! q with
      | Some (File _ _) => (Return tt, with_files (delete q (files w)) w)
      | Some (Dir _) => (Raise (OSError EISDIR), w)
      | None => (Raise (OSError ENOENT), w)
      end
  end.

Definition child_name (q : loc) (entry : list string * node) : option string :=
  match fst entry with
  | name :: parent =>
      if decide (parent = q) then (if String.eqb name dotdot then None else Some name)
      else None
  | [] => None
  end.

(** [os.listdir]: the names of the entries directly inside the directory at
    [q], in the order the map enumerates them; [..] is never listed. *)
Definition children (fs : gmap (list string) node) (q : loc) : list string :=
  omap (child_name q) (map_to_list fs).

(** [list(p.iterdir())]: one path per entry of the directory. *)
Definition Path_iterdir (p : Path) : M (list Path) := fun w =>
  match resolve w p with
  | inl e => (Raise e, w)
  | inr q =>
      match files w !! q with
      | Some (Dir _) => (Return (map (fun name => p ++ [name]) (children (files w) q)), w)
      | Some (File _ _) => (Raise (OSError ENOTDIR), w)
      | None => (Raise (OSError ENOENT), w)
      end
  end.

(** [os.mkdir(p)] *)
Definition os_mkdir (p : Path) : M unit := fun w =>
  match resolve w p with
  | inl e => (Raise e, w)
  | inr q =>
      match files w !! q with
      | Some _ => (Raise (OSError EEXIST), w)
      | None =>
          if can_create (files w) q
          then (Return tt, with_files (<[q := Dir (now_stamp w)]> (files w)) w)
          else (Raise (OSError ENOENT), w)
      end
  end.

(** What [Path.mkdir] does with an [OSError] other than [FileNotFoundError]
    when [exist_ok] is set: accept it if the path is a directory. *)
Definition accept_existing_dir (p : Path) (e : exn) : M unit :=
  let* d := Path_is_dir p in if d then ret tt else raise e.

(** [p.mkdir(parents=False, exist_ok=True)] *)
Definition mkdir_exist_ok (p : Path) : M unit :=
  try_except (os_mkdir p)
    (fun e => match e with
              | OSError ENOENT => raise e
              | OSError _ => accept_existing_dir p e
              | _ => raise e
              end).

(** [p.mkdir(parents=True, exist_ok=True)] for [p = rev rp]: pathlib tries
    [os.mkdir] first and, on [FileNotFoundError], makes the parent (the path
    without its last component) and tries again. *)
Fixpoint mkdir_parents_rev (rp : list string) : M unit :=
  try_except (os_mkdir (rev rp))
    (fun e => match e with
              | OSError ENOENT =>
                  match rp with
                  | [] => raise e
                  | _ :: rparent => mkdir_parents_rev rparent >> mkdir_exist_ok (rev rp)
                  end
              | OSError _ => accept_existing_dir (rev rp) e
              | _ => raise e
              end).

Definition Path_mkdir_parents_exist_ok (p : Path) : M unit := mkdir_parents_rev (rev p).

(** [time.time()] *)
Definition time_time : M Q := fun w => (Return (clock w), w).

(** *** [requests] *)

Record Response := { status_code : Z; text : string }.

(** The network: what a GET of a URL yields now; [None] when the request
    itself fails ([requests.RequestException]). *)
Definition Network : Type := string -> option Response.

Definition requests_get (net : Network) (url : string) : M Response := fun w =>
  match net url with
  | Some r => (Return r, with_sent (url :: sent w) w)
  | None => (Raise RequestException, with_sent (url :: sent w) w)
  end.

(** [Response.raise_for_status]: client errors 4xx and server errors 5xx. *)
Definition raise_for_status (r : Response) : M unit :=
  if ((400 <=? status_code r)%Z && (status_code r <? 600)%Z)%bool
  then raise (HTTPError (status_code r))
  else ret tt.

(** ** [cache.py]: class [Cache] *)

Record Cache := {
  app_name : string;
  obsolescence : Z;
  cache_dir : list string
}.

Definition create_app_dir (dir : Path) : M unit :=
  let path := dir in
  Path_mkdir_parents_exist_ok path.

(** [Cache.__init__] *)
Definition Cache_init (app : string) (obs : Z) (base_dir : Path) : M Cache :=
  if (obs <? 0)%Z then raise (CacheError ["La obsolescencia no puede ser negativa"])
  else
    let self := {| app_name := app; obsolescence := obs; cache_dir := base_dir </> app |} in
    create_app_dir (cache_dir self) >>
    ret self.

Definition not_in_cache (name : string) : exn :=
  CacheError [String.append "No existe el archivo '" (String.append name "' en cache.")].

Definition Cache_set (self : Cache) (name data : string) : M unit :=
  let file := cache_dir self </> name in
  write_text file data.

Definition Cache_exists (self : Cache) (name : string) : M bool :=
  let path := cache_dir self </> name in
  Path_exists path.

Definition Cache_load (self : Cache) (name : string) : M string :=
  let path := cache_dir self </> name in
  let* ex := Path_exists path in
  if ex then read_text path
  else raise (not_in_cache name).

Definition Cache_how_old (self : Cache) (name : string) : M Q :=
  let path := cache_dir self </> name in
  let* ex := Path_exists path in
  if ex then
    let* created_time :=
      try_except (let* st := Path_stat path in get_st_birthtime st)
        (fun e => match e with
                  | AttributeError => let* st := Path_stat path in ret (st_mtime st)
                  | _ => raise e
                  end) in
    let* now := time_time in
    let age := (now - created_time)%Q in
    ret (age * 1000)%Q
  else raise (not_in_cache name).

Definition Cache_delete (self : Cache) (name : string) : M unit :=
  let path := cache_dir self </> name in
  let* ex := Path_exists path in
  if ex then
    let path := cache_dir self </> name in
    Path_unlink path
  else raise (CacheError []).

Definition Cache_clear (self : Cache) : M unit :=
  let* fs := Path_iterdir (cache_dir self) in
  for_each fs (fun f => Path_unlink f).

(** ** [cacheUrl.py]: class [CacheUrl]

    [CacheUrl] inherits the state of [Cache]; [get] calls the methods of the
    base class ([super()]), not its own overrides. *)

(** [CacheUrl.__init__] *)
Definition CacheUrl_init (app : string) (obs : Z) (base_dir : Path) : M Cache :=
  Cache_init app obs base_dir.

Definition _hash (url : string) : string := MD5.hexdigest url.

Definition CacheUrl_get (net : Network) (self : Cache) (url : string) : M string :=
  let url_hashed := _hash url in
  let* ex := Cache_exists self url_hashed in
  if ex then Cache_load self url_hashed
  else
    let* response := requests_get net url in
    raise_for_status response >>
    Cache_set self url_hashed (text response) >>
    ret (text response).

Definition CacheUrl_exists (self : Cache) (url : string) : M bool :=
  let url_hashed := _hash url in
  Cache_exists self url_hashed.

Definition CacheUrl_load (self : Cache) (url : string) : M string :=
  let url_hashed := _hash url in
  Cache_load self url_hashed.

Definition CacheUrl_how_old (self : Cache) (url : string) : M Q :=
  let url_hashed := _hash url in
  Cache_how_old self url_hashed.

Definition CacheUrl_delete (self : Cache) (url : string) : M unit :=
  let url_hashed := _hash url in
  Cache_delete self url_hashed.

(** ** Vocabulary of the statements *)

Fixpoint has_slash (s : string) : bool :=
  match s with
  | EmptyString => false
  | String a s' => Ascii.eqb a slash || has_slash s'
  end.

(** A non-empty name without a slash that is neither [.] nor [..]. *)
Definition is_plain_name (k : string) : bool :=
  negb (has_slash k) && negb (String.eqb k EmptyString)
  && negb (String.eqb k dot) && negb (String.eqb k dotdot).

(** What a path names in a world, if anything. *)
Definition entry (w : World) (p : Path) : option node :=
  match resolve w p with
  | inr q => files w !! q
  | inl _ => None
  end.

Definition present (w : World) (p : Path) : bool :=
  match entry w p with
  | Some _ => true
  | None => false
  end.

(** The error with which [stat] of a path fails and which [Path.exists]
    raises again, if there is one. *)
Definition stat_error (w : World) (p : Path) : option exn :=
  match resolve w p with
  | inl e =>
      match e with
      | OSError en => if ignore_error en then None else Some e
      | ValueError => None
      | _ => Some e
      end
  | inr _ => None
  end.

(** A name a directory accepts: no NUL, at most [NAME_MAX] bytes. *)
Definition accepted_name (k : string) : bool :=
  negb (has_NUL k) && negb (name_too_long k).

(** The outcomes of [mkdir]: the directory is there, or an [OSError], or
    the [ValueError] of a path with a NUL character, raised before anything
    is made. *)
Definition mkdir_outcome (p : Path) (w : World) (o : outcome unit) (w' : World) : Prop :=
  (o = Return tt /\ exists st, entry w' p = Some (Dir st))
  \/ (exists en, o = Raise (OSError en))
  \/ (o = Raise ValueError /\ w' = w /\ existsb has_NUL p = true).

(** The time [how_old] takes as the creation time of a node. *)
Definition created_time_of (w : World) (n : node) : Q :=
  if has_birthtime w then st_birthtime (node_stat n) else st_mtime (node_stat n).

Definition is_RequestException (e : exn) : bool :=
  match e with RequestException | HTTPError _ => true | _ => false end.

(** A status of the class 2xx (Successful). *)
Definition success_status (r : Response) : bool :=
  ((200 <=? status_code r)%Z && (status_code r <? 300)%Z)%bool.

(** Whether [raise_for_status] raises for a response. *)
Definition error_status (r : Response) : bool :=
  ((400 <=? status_code r)%Z && (status_code r <? 600)%Z)%bool.

Fixpoint has_CR (s : string) : bool :=
  match s with
  | EmptyString => false
  | String a s' => Ascii.eqb a CR || has_CR s'
  end.

Definition is_hex_char (a : ascii) : bool := existsb (Ascii.eqb a) MD5.hex_digits.

Definition is_byte (b : Z) : Prop := (0 <= b < 256)%Z.

(** Every directory of [fs] is a directory of [fs']. *)
Definition dirs_kept (fs fs' : gmap (list string) node) : Prop :=
  forall q, is_dir_at fs q = true -> is_dir_at fs' q = true.

(** The root is a directory and no location on the way from the root to
    [rp] holds a regular file. *)
Definition unobstructed (fs : gmap (list string) node) (rp : list string) : Prop :=
  is_dir_at fs [] = true
  /\ forall q, q `suffix_of` rp -> forall d st, fs !! q <> Some (File d st).

(** No time stamp in the file system is later than the clock. *)
Definition timestamps_past (w : World) : Prop :=
  forall q n, files w !! q = Some n ->
    (st_birthtime (node_stat n) <= clock w)%Q /\ (st_mtime (node_stat n) <= clock w)%Q.

(** ** Histories of calls on one cache *)

Inductive call :=
  | call_set (name data : string)
  | call_exists (name : string)
  | call_load (name : string)
  | call_how_old (name : string)
  | call_delete (name : string)
  | call_clear
  | time_passes (dt : Q).

(** The world a call leaves behind, whether it returns or raises. *)
Definition after_call (self : Cache) (c : call) (w : World) : World :=
  match c with
  | call_set name data => snd (Cache_set self name data w)
  | call_exists name => snd (Cache_exists self name w)
  | call_load name => snd (Cache_load self name w)
  | call_how_old name => snd (Cache_how_old self name w)
  | call_delete name => snd (Cache_delete self name w)
  | call_clear => snd (Cache_clear self w)
  | time_passes dt => with_clock (clock w + dt)%Q w
  end.

Definition after_calls (self : Cache) (cs : list call) (w : World) : World :=
  fold_left (fun w c => after_call self c w) cs w.



(** Time does not run backwards in the call. *)
Definition forward_call (c : call) : Prop :=
  match c with
  | time_passes dt => (0 <= dt)%Q
  | _ => True
  end.

(** ** Sample worlds and inputs *)

Definition epoch : stat_result := {| st_birthtime := 0; st_mtime := 0 |}.

(** A file system that holds the root directory only, at time 100. *)
Definition bare_world : World :=
  {| files := {[ [] := Dir epoch ]}; clock := 100; has_birthtime := false; sent := [] |}.

Definition test_app : Cache :=
  {| app_name := "test_app"; obsolescence := 10; cache_dir := ["tmp"; "cache"; "test_app"] |}.

(** The world after [Cache("test_app", 10, Path("/tmp/cache"))] in [bare_world]. *)
Definition fresh_world : World := snd (Cache_init "test_app" 10 ["tmp"; "cache"] bare_world).

Definition test_url : string := "http://x/data.csv".

(** A payload with a Windows line ending: [a,b\r\n1,2]. *)
Definition crlf_body : string :=
  String.append "a,b" (String CR (String LF "1,2")).
(** The same text with the line ending text-mode reading yields: [a,b\n1,2]. *)
Definition lf_body : string :=
  String.append "a,b" (String LF "1,2").

Definition net_crlf : Network := fun _ => Some {| status_code := 200; text := crlf_body |}.
Definition net_300 : Network := fun _ => Some {| status_code := 300; text := "x" |}.
Definition net_500 : Network := fun _ => Some {| status_code := 500; text := "oops" |}.
Definition net_down : Network := fun _ => None.

(** Payloads with a lone carriage return: [a\rb], and what is read back. *)
Definition cr_payload : string := String "a" (String CR "b").
Definition cr_payload_read : string := String "a" (String LF "b").



(** [fresh_world] after [set("a.txt", "1")] and [set("b.txt", "2")]. *)
Definition two_files_world : World :=
  after_calls test_app [call_set "a.txt" "1"; call_set "b.txt" "2"] fresh_world.

(** [two_files_world] with a directory [sub] inside the namespace directory
    (made here by constructing a cache for the application [test_app/sub]). *)
Definition subdir_world : World :=
  snd (Cache_init "test_app/sub" 10 ["tmp"; "cache"] two_files_world).

(** [bare_world] with a regular file at [/tmp]. *)
Definition blocked_world : World :=
  with_files (<[ ["tmp"] := File "x" epoch ]> (files bare_world)) bare_world.

(** [fresh_world] after [set("file.txt", "data")] and a clock set back by 50
    seconds. *)
Definition clock_set_back_world : World :=
  after_calls test_app [call_set "file.txt" "data"; time_passes (-50)] fresh_world.

(** ** [madridFines.py]

    The calls into BeautifulSoup and pandas are not embedded: what they
    compute is a parameter ([Libraries]), and the statements below hold for
    every behaviour of these libraries. A data frame is the list of its
    rows. The bodies of [clean], [fines_hour], [fines_calification] and
    [total_payment] are pandas and matplotlib calls only and have no
    definition here. *)

Definition ROOT : string := "https://datos.madrid.es".
Definition MADRID_FINES_URL : string :=
  "/sites/v/index.jsp?vgnextoid=fb9a498a6bdb9410VgnVCM1000000b205a0aRCRD&vgnextchannel=374512b9ace9f310VgnVCM100000171f5a0aRCRD".

(** [str(n)] for an integer. *)
Definition str_int (n : Z) : string := NilZero.string_of_int (Z.to_int n).

(** [f"{n:02d}"] *)
Definition format_02d (n : Z) : string :=
  let s := str_int n in
  if (String.length s <? 2)%nat then String.append "0" s else s.

Inductive app_exn :=
  | MadridError (msg : string)
  | FromCache (e : exn)           (* an exception of the layers below, not caught *)
  | FromLibrary (name : string).  (* an exception of bs4 or pandas, by class name *)

Inductive result (A : Type) :=
  | Ok (a : A)
  | Fail (e : app_exn).
Arguments Ok {A} a.
Arguments Fail {A} e.

Record fine := {
  MES : Z;
  ANIO : Z;
  CALIFICACION : string;
  DESCUENTO : string;
  IMP_BOL : Q
}.

(** What the loop of [get_url] over the list items of the index page ends
    with: the [href] of the first CSV link of the month, no such link, or a
    CSV link tag without an [href] attribute ([link_tag['href']] then raises
    [KeyError]). *)
Inductive scan_result :=
  | CsvLink (href : string)
  | NoCsvLink
  | LinkWithoutHref.

Record Libraries := {
  str_exception : exn -> string;                 (* [str(e)] *)
  scan_index : string -> Z -> Z -> scan_result;  (* page text, year, month *)
  read_csv : string -> result (list fine);       (* [pd.read_csv(StringIO(data), ...)] *)
  clean_frame : list fine -> result (list fine); (* the effect of [MadridFines.clean] *)
  home : list string                             (* [Path.home()] *)
}.

Definition valid_year (year : Z) : bool := ((2017 <=? year) && (year <=? 2025))%Z.
Definition valid_month (month : Z) : bool := ((1 <=? month) && (month <=? 12))%Z.

Definition index_url : string := String.append ROOT MADRID_FINES_URL.

Definition get_url (lib : Libraries) (net : Network) (year month : Z)
  : World -> result string * World := fun w =>
  if negb (valid_year year) then
    (Fail (MadridError (String.append "Año fuera de rango: " (str_int year))), w)
  else if negb (valid_month month) then
    (Fail (MadridError (String.append "Mes inválido: " (str_int month))), w)
  else
    match (let* resp := requests_get net index_url in
           raise_for_status resp >> ret resp) w with
    | (Raise e, w') =>
        if is_RequestException e then
          (Fail (MadridError (String.append "No se pudo obtener la página principal: "
                                            (str_exception lib e))), w')
        else (Fail (FromCache e), w')
    | (Return resp, w') =>
        match scan_index lib (text resp) year month with
        | CsvLink href => (Ok (String.append ROOT href), w')
        | LinkWithoutHref => (Fail (FromLibrary "KeyError"), w')
        | NoCsvLink =>
            (Fail (MadridError
                     (String.append "No se encontró CSV para "
                        (String.append (str_int year)
                           (String.append "-" (format_02d month))))), w')
        end
    end.

Record MadridFines := {
  cacheurl : Cache;
  data : list fine;
  loaded : list (Z * Z)
}.

(** [MadridFines.__init__]: the cache lives under [~/.my_cache]. *)
Definition MadridFines_init (lib : Libraries) (app : string) (obs : Z)
  : World -> result MadridFines * World := fun w =>
  match CacheUrl_init app obs (home lib </> ".my_cache") w with
  | (Return c, w') => (Ok {| cacheurl := c; data := []; loaded := [] |}, w')
  | (Raise e, w') => (Fail (FromCache e), w')
  end.

(** [MadridFines.load] *)
Definition MadridFines_load (lib : Libraries) (net : Network) (year month : Z)
  (cache : Cache) : World -> result (list fine) * World := fun w =>
  match get_url lib net year month w with
  | (Fail e, w1) => (Fail e, w1)
  | (Ok url, w1) =>
      match CacheUrl_get net cache url w1 with
      | (Raise e, w2) => (Fail (FromCache e), w2)
      | (Return text, w2) => (read_csv lib text, w2)
      end
  end.

(** [(year, m) in self.__loaded] *)
Definition in_loaded (year m : Z) (l : list (Z * Z)) : bool :=
  existsb (fun p => (fst p =? year)%Z && (snd p =? m)%Z) l.

(** The loop of [MadridFines.add] over [months]. The object as it is when
    an exception is raised is kept. *)
Fixpoint add_months (lib : Libraries) (net : Network) (year : Z) (months : list Z)
  (self : MadridFines) (w : World) : result unit * MadridFines * World :=
  match months with
  | [] => (Ok tt, self, w)
  | m :: rest =>
      if negb (in_loaded year m (loaded self)) then
        match MadridFines_load lib net year m (cacheurl self) w with
        | (Fail e, w1) => (Fail e, self, w1)
        | (Ok df, w1) =>
            match clean_frame lib df with
            | Fail e => (Fail e, self, w1)
            | Ok df' =>
                add_months lib net year rest
                  {| cacheurl := cacheurl self;
                     data := data self ++ df';
                     loaded := loaded self ++ [(m, year)] |} w1
            end
        end
      else add_months lib net year rest self w
  end.

(** [range(1, 13)] *)
Definition all_months : list Z := map Z.of_nat (seq 1 12).

(** [MadridFines.add] *)
Definition MadridFines_add (lib : Libraries) (net : Network) (self : MadridFines)
  (year : Z) (month : option Z) (w : World) : result unit * MadridFines * World :=
  match month with
  | None => add_months lib net year all_months self w
  | Some m =>
      if valid_month m then add_months lib net year [m] self w
      else (Fail (MadridError (String.append "Mes inválido: " (str_int m))), self, w)
  end.

(** Every pair of [loaded] is a month and a year that [get_url] accepts. *)
Definition loaded_ok (l : list (Z * Z)) : Prop :=
  Forall (fun p => valid_month (fst p) = true /\ valid_year (snd p) = true) l.

(** Libraries for the examples: a page with one CSV link, frames of one row. *)
Definition sample_row : fine :=
  {| MES := 4; ANIO := 2025; CALIFICACION := "LEVE"; DESCUENTO := "SI"; IMP_BOL := 100 |}.
Definition sample_lib : Libraries :=
  {| str_exception := fun _ => "Fallo";
     scan_index := fun _ _ _ => CsvLink "/egob/catalogo/210104-403-multas-circulacion-detalle.csv";
     read_csv := fun _ => Ok [sample_row];
     clean_frame := fun df => Ok df;
     home := ["home"; "user"] |}.
Definition net_ok : Network := fun _ => Some {| status_code := 200; text := "page" |}.
Definition empty_fines : MadridFines :=
  {| cacheurl := test_app; data := []; loaded := [] |}.

Definition sample_csv_url : string :=
  String.append ROOT "/egob/catalogo/210104-403-multas-circulacion-detalle.csv".
(** The index page is served, the CSV files are not. *)
Definition net_index_only : Network := fun url =>
  if String.eqb url index_url then Some {| status_code := 200; text := "page" |} else None.

(** The months a call of [add] goes through. *)
Definition requested_months (month : option Z) : list Z :=
  match month with
  | None => all_months
  | Some m => [m]
  end.

(** The objects a program can hold: made by the constructor, then changed
    by calls of [add], whatever they return or raise. *)
Inductive reachable (lib : Libraries) : MadridFines -> Prop :=
  | reach_init app obs w self w' :
      MadridFines_init lib app obs w = (Ok self, w') -> reachable lib self
  | reach_add net self year month w r self' w' :
      reachable lib self ->
      MadridFines_add lib net self year month w = (r, self', w') ->
      reachable lib self'.

(** Libraries whose index page links the CSV files of January and February only. *)
Definition two_months_lib : Libraries :=
  {| str_exception := str_exception sample_lib;
     scan_index := fun _ _ month =>
       if (month <? 3)%Z
       then CsvLink "/egob/catalogo/210104-403-multas-circulacion-detalle.csv"
       else NoCsvLink;
     read_csv := read_csv sample_lib;
     clean_frame := clean_frame sample_lib;
     home := home sample_lib |}.

(** ** Known answers for [MD5] (RFC 1321, appendix A.5, and one-, two-block
    and boundary-length messages) *)

Example md5_empty : MD5.hexdigest EmptyString = "d41d8cd98f00b204e9800998ecf8427e".
Proof. vm_compute. reflexivity. Qed.

Example md5_abc : MD5.hexdigest "abc" = "900150983cd24fb0d6963f7d28e17f72".
Proof. vm_compute. reflexivity. Qed.

Example md5_message_digest :
  MD5.hexdigest "message digest" = "f96b697d7cb7938d525a2f31aaf161d0".
Proof. vm_compute. reflexivity. Qed.

Example md5_55_bytes :
  MD5.hexdigest "aaaaaaaaaaaaaaaaaaaaaaaaaaaaaaaaaaaaaaaaaaaaaaaaaaaaaaa"
  = "ef1772b6dff9a122358552954ad0df65".
Proof. vm_compute. reflexivity. Qed.

Example md5_56_bytes :
  MD5.hexdigest "aaaaaaaaaaaaaaaaaaaaaaaaaaaaaaaaaaaaaaaaaaaaaaaaaaaaaaaa"
  = "3b0c8ac703f828b04c6c197006d17218".
Proof. vm_compute. reflexivity. Qed.

Example md5_70_bytes :
  MD5.hexdigest "aaaaaaaaaaaaaaaaaaaaaaaaaaaaaaaaaaaaaaaaaaaaaaaaaaaaaaaaaaaaaaaaaaaaaa"
  = "0f5c6c4e740bfcc08c3c26ccb2673d46".
Proof. vm_compute. reflexivity. Qed.

(** The key of the URL used in [tests/test_cacheurl.py]. *)
Example md5_test_url :
  _hash "http://example.com/data.csv" = "931eb9ea809a3005ecbcbba9a74aec3e".
Proof. vm_compute. reflexivity. Qed.

(** ** The monad: how outcomes compose *)

Lemma bind_Return {A B} (m : M A) (k : A -> M B) w a w' :
  m w = (Return a, w') -> bind m k w = k a w'.
Proof. intros H. unfold bind. rewrite H. reflexivity. Qed.

Lemma bind_Raise {A B} (m : M A) (k : A -> M B) w e w' :
  m w = (Raise e, w') -> bind m k w = (Raise e, w').
Proof. intros H. unfold bind. rewrite H. reflexivity. Qed.

(** ** Splitting and joining paths *)

Lemma split_slash_no_slash s : has_slash s = false -> split_slash s = [s].
Proof.
  induction s as [|a s IH]; simpl; [reflexivity|].
  intros H. apply orb_false_iff in H as [Ha Hs].
  rewrite Ha, (IH Hs). reflexivity.
Qed.

Lemma plain_name_parts k :
  is_plain_name k = true -> parts k = [k] /\ is_absolute k = false /\ k <> dotdot.
Proof.
  unfold is_plain_name. rewrite !andb_true_iff, !negb_true_iff.
  intros [[[Hs He] Hd] Hdd]. split; [|split].
  - unfold parts. rewrite (split_slash_no_slash _ Hs). simpl.
    unfold kept_part. rewrite He, Hd. reflexivity.
  - destruct k as [|a k]; [reflexivity|]. simpl in *.
    apply orb_false_iff in Hs as [Ha _]. exact Ha.
  - intros ->. discriminate.
Qed.

Lemma joinpath_plain p k : is_plain_name k = true -> p </> k = p ++ [k].
Proof.
  intros H. destruct (plain_name_parts k H) as (Hp & Ha & _).
  unfold joinpath. rewrite Ha, Hp. reflexivity.
Qed.

(** ** The shape of an MD5 key *)

Lemma hex_digit_is_hex n : is_hex_char (MD5.hex_digit n) = true.
Proof.
  unfold MD5.hex_digit.
  destruct (nth_in_or_default (Z.to_nat (n mod 16)) MD5.hex_digits "0"%char) as [Hin | ->];
    [|reflexivity].
  unfold is_hex_char. apply existsb_exists.
  exists (nth (Z.to_nat (n mod 16)) MD5.hex_digits "0"%char). split; [exact Hin|].
  apply Ascii.eqb_refl.
Qed.

Lemma hex_char_ordinary a :
  is_hex_char a = true -> Ascii.eqb a slash = false /\ Ascii.eqb a "."%char = false.
Proof.
  unfold is_hex_char. intros H. apply existsb_exists in H as (x & Hin & Heq).
  apply Ascii.eqb_eq in Heq. subst x.
  simpl in Hin. repeat (destruct Hin as [<- | Hin]; [split; reflexivity|]).
  destruct Hin.
Qed.

Lemma hex_no_slash bs : has_slash (MD5.hex bs) = false.
Proof.
  induction bs as [|b bs IH]; simpl; [reflexivity|].
  rewrite IH.
  destruct (hex_char_ordinary _ (hex_digit_is_hex (b / 16))) as [-> _].
  destruct (hex_char_ordinary _ (hex_digit_is_hex b)) as [-> _].
  reflexivity.
Qed.

Lemma hex_length bs : String.length (MD5.hex bs) = 2 * length bs.
Proof. induction bs as [|b bs IH]; simpl; [reflexivity|]. rewrite IH. lia. Qed.

Lemma digest_length msg : length (MD5.digest msg) = 16.
Proof.
  unfold MD5.digest.
  destruct (fold_left _ _ _) as [[[a b] c] d]. reflexivity.
Qed.

Lemma le_bytes_are_bytes n x : Forall is_byte (MD5.le_bytes n x).
Proof.
  unfold MD5.le_bytes. apply Forall_map, Forall_forall. intros i _.
  unfold is_byte. change 0xFF%Z with (Z.ones 8).
  rewrite Z.land_ones by lia. apply Z.mod_pos_bound. reflexivity.
Qed.

Lemma digest_bytes msg : Forall is_byte (MD5.digest msg).
Proof.
  unfold MD5.digest.
  destruct (fold_left _ _ _) as [[[a b] c] d].
  repeat apply Forall_app_2; apply le_bytes_are_bytes.
Qed.

Lemma hexdigest_length s : String.length (MD5.hexdigest s) = 32.
Proof. unfold MD5.hexdigest. rewrite hex_length, digest_length. reflexivity. Qed.

Lemma hex_plain b bs : is_plain_name (MD5.hex (b :: bs)) = true.
Proof.
  unfold is_plain_name. rewrite hex_no_slash. simpl.
  destruct (hex_char_ordinary _ (hex_digit_is_hex (b / 16))) as [_ Hd].
  unfold dot, dotdot. simpl. rewrite Hd. reflexivity.
Qed.

Lemma hex_char_not_NUL a : is_hex_char a = true -> Ascii.eqb a NUL = false.
Proof.
  unfold is_hex_char. intros H. apply existsb_exists in H as (x & Hin & Heq).
  apply Ascii.eqb_eq in Heq. subst x.
  simpl in Hin. repeat (destruct Hin as [<- | Hin]; [reflexivity|]).
  destruct Hin.
Qed.

Lemma hex_no_NUL bs : has_NUL (MD5.hex bs) = false.
Proof.
  induction bs as [|b bs IH]; simpl; [reflexivity|].
  rewrite IH, (hex_char_not_NUL _ (hex_digit_is_hex (b / 16))),
    (hex_char_not_NUL _ (hex_digit_is_hex b)). reflexivity.
Qed.


(** The key of a URL is a plain file name. *)
Lemma hash_plain url : is_plain_name (_hash url) = true.
Proof.
  unfold _hash, MD5.hexdigest.
  pose proof (digest_length (MD5.bytes_of_string url)) as Hlen.
  destruct (MD5.digest (MD5.bytes_of_string url)) as [|b bs]; [discriminate|].
  apply hex_plain.
Qed.

Lemma hex_digits_NoDup : NoDup MD5.hex_digits.
Proof.
  unfold MD5.hex_digits.
  repeat (apply NoDup_cons_2;
          [rewrite ?elem_of_cons, elem_of_nil; intuition discriminate|]).
  apply NoDup_nil_2.
Qed.

Lemma hex_digit_inj x y :
  MD5.hex_digit x = MD5.hex_digit y -> (x mod 16 = y mod 16)%Z.
Proof.
  unfold MD5.hex_digit. intros H.
  assert (Hx : (0 <= x mod 16 < 16)%Z) by (apply Z.mod_pos_bound; reflexivity).
  assert (Hy : (0 <= y mod 16 < 16)%Z) by (apply Z.mod_pos_bound; reflexivity).
  assert (Hi : Z.to_nat (x mod 16) = Z.to_nat (y mod 16)).
  { apply (proj1 (List.NoDup_nth MD5.hex_digits "0"%char)); try exact H.
    - apply NoDup_ListNoDup, hex_digits_NoDup.
    - simpl. lia.
    - simpl. lia. }
  lia.
Qed.

Lemma hex_inj l1 l2 :
  Forall is_byte l1 -> Forall is_byte l2 -> MD5.hex l1 = MD5.hex l2 -> l1 = l2.
Proof.
  intros H1. revert l2. induction H1 as [|b l1 Hb _ IH]; intros l2 H2 Heq.
  - destruct l2; [reflexivity | discriminate].
  - destruct H2 as [|b' l2 Hb' H2]; [discriminate|].
    simpl in Heq. injection Heq as Hhi Hlo Hrest.
    apply hex_digit_inj in Hhi, Hlo. unfold is_byte in *.
    f_equal; [|apply IH; assumption].
    rewrite (Z.div_mod b 16), (Z.div_mod b' 16) by lia.
    rewrite Hlo. f_equal. f_equal.
    rewrite <- (Z.mod_small (b / 16) 16), <- (Z.mod_small (b' / 16) 16); [exact Hhi| |].
    + split; [apply Z.div_pos; lia | apply Z.div_lt_upper_bound; lia].
    + split; [apply Z.div_pos; lia | apply Z.div_lt_upper_bound; lia].
Qed.

(** ** Path resolution *)

Lemma walk_app fs cur a b :
  walk fs cur (a ++ b)
  = match walk fs cur a with
    | inr q => walk fs q b
    | inl e => inl e
    end.
Proof.
  revert cur. induction a as [|c a IH]; intros cur; simpl; [reflexivity|].
  destruct (fs !! cur) as [[d st|st]|]; auto.
  destruct (String.eqb c dotdot); [auto|]. destruct (name_too_long c); auto.
Qed.

Lemma is_dir_at_true fs q : is_dir_at fs q = true <-> exists st, fs !! q = Some (Dir st).
Proof.
  unfold is_dir_at. destruct (fs !! q) as [[d st|st]|]; split;
    try discriminate; try (intros [? ?]; discriminate); eauto.
Qed.

Lemma walk_dirs_kept fs fs' cur cs r :
  dirs_kept fs fs' -> walk fs cur cs = inr r -> walk fs' cur cs = inr r.
Proof.
  intros Hk. revert cur. induction cs as [|c cs IH]; intros cur; simpl; [auto|].
  destruct (fs !! cur) as [[d st|st]|] eqn:E; try discriminate.
  assert (Hd : is_dir_at fs' cur = true).
  { apply Hk. apply is_dir_at_true. eauto. }
  apply is_dir_at_true in Hd as [st' ->].
  destruct (String.eqb c dotdot); [apply IH|].
  destruct (name_too_long c); [discriminate|apply IH].
Qed.

Lemma walk_snoc fs cur p k :
  k <> dotdot ->
  walk fs cur (p ++ [k])
  = match walk fs cur p with
    | inr q => match fs !! q with
               | Some (Dir _) => if name_too_long k then inl ENAMETOOLONG else inr (k :: q)
               | Some (File _ _) => inl ENOTDIR
               | None => inl ENOENT
               end
    | inl e => inl e
    end.
Proof.
  intros Hk. rewrite walk_app. destruct (walk fs cur p) as [e|q]; [reflexivity|].
  simpl. apply String.eqb_neq in Hk. rewrite Hk.
  destruct (fs !! q) as [[d st|st]|]; [reflexivity| |reflexivity].
  destruct (name_too_long k); reflexivity.
Qed.



Lemma dirs_kept_insert fs q n : is_dir_at fs q = false -> dirs_kept fs (<[q := n]> fs).
Proof.
  intros Hq q' H. destruct (decide (q = q')) as [->|Hne]; [congruence|].
  unfold is_dir_at in *. rewrite lookup_insert_ne by exact Hne. exact H.
Qed.

Lemma dirs_kept_insert_file_back fs q d st : dirs_kept (<[q := File d st]> fs) fs.
Proof.
  intros q' H. unfold is_dir_at in *. destruct (decide (q = q')) as [->|Hne].
  - rewrite lookup_insert_eq in H. discriminate.
  - rewrite lookup_insert_ne in H by exact Hne. exact H.
Qed.

Lemma dirs_kept_delete fs q : is_dir_at fs q = false -> dirs_kept fs (delete q fs).
Proof.
  intros Hq q' H. destruct (decide (q = q')) as [->|Hne]; [congruence|].
  unfold is_dir_at in *. rewrite lookup_delete_ne by exact Hne. exact H.
Qed.

Lemma dirs_kept_delete_back fs q : dirs_kept (delete q fs) fs.
Proof.
  intros q' H. unfold is_dir_at in *. destruct (decide (q = q')) as [->|Hne].
  - rewrite lookup_delete_eq in H. discriminate.
  - rewrite lookup_delete_ne in H by exact Hne. exact H.
Qed.

(** The errors of a walk. *)
Lemma walk_errors fs cs : forall cur e,
  walk fs cur cs = inl e -> e = ENOENT \/ e = ENOTDIR \/ e = ENAMETOOLONG.
Proof.
  induction cs as [|c cs IH]; intros cur e; simpl; [discriminate|].
  destruct (fs !! cur) as [[d st|st]|]; [intros [= <-]; auto| |intros [= <-]; auto].
  destruct (String.eqb c dotdot); [apply IH|].
  destruct (name_too_long c); [intros [= <-]; auto|apply IH].
Qed.

(** ** Paths that Python and the kernel refuse *)

Lemma path_length_app a b : path_length (a ++ b) = (path_length a + path_length b)%Z.
Proof. induction a as [|c a IH]; simpl; [reflexivity|]. rewrite IH. lia. Qed.

Lemma path_length_nonneg p : (0 <= path_length p)%Z.
Proof. induction p as [|c p IH]; simpl; lia. Qed.

Lemma path_error_None p :
  path_error p = None
  <-> existsb has_NUL p = false /\ (str_length p < PATH_MAX)%Z.
Proof.
  unfold path_error. destruct (existsb has_NUL p).
  - split; [discriminate|intros [[=] _]].
  - destruct (Z.leb_spec PATH_MAX (str_length p)); split;
      try discriminate; try (intros [_ H']; lia); auto.
Qed.

Lemma path_error_cases p e :
  path_error p = Some e -> e = ValueError \/ e = OSError ENAMETOOLONG.
Proof.
  unfold path_error. destruct (existsb has_NUL p); [intros [= <-]; auto|].
  destruct (PATH_MAX <=? str_length p)%Z; [intros [= <-]; auto|discriminate].
Qed.

(** A path that is accepted has accepted prefixes. *)
Lemma path_error_prefix a b : path_error (a ++ b) = None -> path_error a = None.
Proof.
  rewrite !path_error_None, existsb_app, orb_false_iff. unfold str_length.
  rewrite path_length_app. pose proof (path_length_nonneg b).
  unfold PATH_MAX. intros [[Ha _] Hl]. split; [exact Ha|lia].
Qed.

Lemma resolve_inr w p q :
  resolve w p = inr q <-> path_error p = None /\ walk (files w) [] p = inr q.
Proof.
  unfold resolve. destruct (path_error p) as [e|].
  - split; [discriminate|intros [[=] _]].
  - destruct (walk (files w) [] p) as [e|r].
    + split; [discriminate|intros [_ [=]]].
    + split; [intros [= ->]; auto|intros [_ [= ->]]; reflexivity].
Qed.

(** The exceptions of a path resolution. *)
Lemma resolve_errors w p e :
  resolve w p = inl e ->
  e = ValueError \/ e = OSError ENAMETOOLONG \/ e = OSError ENOENT \/ e = OSError ENOTDIR.
Proof.
  unfold resolve. destruct (path_error p) as [e'|] eqn:Hp.
  - intros [= <-]. destruct (path_error_cases _ _ Hp) as [->| ->]; auto.
  - destruct (walk (files w) [] p) as [en|r] eqn:Hw; [|discriminate].
    intros [= <-]. destruct (walk_errors _ _ _ _ Hw) as [->|[->| ->]]; auto.
Qed.

Lemma resolve_dirs_kept w fs' p q :
  dirs_kept (files w) fs' -> resolve w p = inr q -> resolve (with_files fs' w) p = inr q.
Proof.
  intros Hk. rewrite !resolve_inr. intros [Hp Hw]. split; [exact Hp|].
  exact (walk_dirs_kept _ _ _ _ _ Hk Hw).
Qed.

(** Where a plain name leads from a directory that resolves. *)
Lemma resolve_snoc w cd k :
  k <> dotdot ->
  resolve w (cd ++ [k])
  = match path_error (cd ++ [k]) with
    | Some e => inl e
    | None =>
        match resolve w cd with
        | inr q => match files w !! q with
                   | Some (Dir _) =>
                       if name_too_long k then inl (OSError ENAMETOOLONG)
                       else inr (k :: q)
                   | Some (File _ _) => inl (OSError ENOTDIR)
                   | None => inl (OSError ENOENT)
                   end
        | inl e => inl e
        end
    end.
Proof.
  intros Hk. unfold resolve at 1. destruct (path_error (cd ++ [k])) eqn:Hp; [reflexivity|].
  unfold resolve. rewrite (path_error_prefix _ _ Hp), (walk_snoc _ _ _ _ Hk).
  destruct (walk (files w) [] cd) as [e|q]; [reflexivity|].
  destruct (files w !! q) as [[d st|st]|]; [reflexivity| |reflexivity].
  destruct (name_too_long k); reflexivity.
Qed.

Lemma stat_error_cases w p e : stat_error w p = Some e -> e = OSError ENAMETOOLONG.
Proof.
  unfold stat_error. destruct (resolve w p) as [e'|q] eqn:Hr; [|discriminate].
  destruct (resolve_errors _ _ _ Hr) as [->|[->|[->| ->]]]; simpl;
    try discriminate. intros [= <-]. reflexivity.
Qed.

Lemma stat_error_of_entry w p n : entry w p = Some n -> stat_error w p = None.
Proof.
  unfold entry, stat_error. destruct (resolve w p); [discriminate|reflexivity].
Qed.

Lemma stat_error_of_resolve w p q : resolve w p = inr q -> stat_error w p = None.
Proof. unfold stat_error. intros ->. reflexivity. Qed.

Lemma stat_error_Some w p e :
  stat_error w p = Some e
  <-> e = OSError ENAMETOOLONG /\ resolve w p = inl (OSError ENAMETOOLONG).
Proof.
  split.
  - intros H. pose proof (stat_error_cases _ _ _ H) as ->. split; [reflexivity|].
    unfold stat_error in H. destruct (resolve w p) as [e'|q] eqn:Hr; [|discriminate].
    destruct (resolve_errors _ _ _ Hr) as [->|[->|[->| ->]]]; simpl in H;
      try discriminate; reflexivity.
  - intros [-> H]. unfold stat_error. rewrite H. reflexivity.
Qed.

(** ** Worlds with the same directories

    Files may come and go: where a path leads, and whether a name on it is
    refused, depends on the directories only. *)

Lemma walk_toolong_dirs_kept fs fs' cs : forall cur,
  dirs_kept fs fs' ->
  walk fs cur cs = inl ENAMETOOLONG -> walk fs' cur cs = inl ENAMETOOLONG.
Proof.
  intros cur Hk. revert cur. induction cs as [|c cs IH]; intros cur; simpl; [discriminate|].
  destruct (fs !! cur) as [[d st|st]|] eqn:E; try discriminate.
  assert (Hd : is_dir_at fs' cur = true).
  { apply Hk. apply is_dir_at_true. eauto. }
  apply is_dir_at_true in Hd as [st' ->].
  destruct (String.eqb c dotdot); [apply IH|].
  destruct (name_too_long c); [reflexivity|apply IH].
Qed.

Lemma resolve_toolong_dirs_kept w w' p :
  dirs_kept (files w) (files w') ->
  resolve w p = inl (OSError ENAMETOOLONG) -> resolve w' p = inl (OSError ENAMETOOLONG).
Proof.
  intros Hk. unfold resolve. destruct (path_error p); [auto|].
  destruct (walk (files w) [] p) as [en|r] eqn:Hw; [|discriminate].
  intros [= ->]. rewrite (walk_toolong_dirs_kept _ _ _ _ Hk Hw). reflexivity.
Qed.

Lemma resolve_inr_dirs_kept w w' p q :
  dirs_kept (files w) (files w') -> resolve w p = inr q -> resolve w' p = inr q.
Proof.
  intros Hk. rewrite !resolve_inr. intros [Hp Hw]. split; [exact Hp|].
  exact (walk_dirs_kept _ _ _ _ _ Hk Hw).
Qed.

Lemma stat_error_same_dirs w w' p :
  dirs_kept (files w) (files w') -> dirs_kept (files w') (files w) ->
  stat_error w' p = stat_error w p.
Proof.
  intros H1 H2. destruct (stat_error w p) as [e|] eqn:E.
  - apply stat_error_Some in E as [-> E]. apply stat_error_Some.
    split; [reflexivity|]. exact (resolve_toolong_dirs_kept _ _ _ H1 E).
  - destruct (stat_error w' p) as [e|] eqn:E'; [|reflexivity].
    apply stat_error_Some in E' as [-> E'].
    apply (resolve_toolong_dirs_kept _ w _ H2) in E'.
    assert (H : stat_error w p = Some (OSError ENAMETOOLONG))
      by (apply stat_error_Some; auto).
    congruence.
Qed.

Lemma entry_same_dirs w w' p :
  dirs_kept (files w) (files w') -> dirs_kept (files w') (files w) ->
  (forall r, resolve w p = inr r -> files w' !! r = files w !! r) ->
  entry w' p = entry w p.
Proof.
  intros H1 H2 Hsame. unfold entry.
  destruct (resolve w p) as [e|r] eqn:Hw.
  - destruct (resolve w' p) as [e'|r'] eqn:Hw'; [reflexivity|].
    apply (resolve_inr_dirs_kept _ w _ _ H2) in Hw'. congruence.
  - rewrite (resolve_inr_dirs_kept _ _ _ _ H1 Hw). apply Hsame. reflexivity.
Qed.

(** A world that differs by one regular file. *)
Lemma dirs_same_insert_file w q d st :
  is_dir_at (files w) q = false ->
  let w' := with_files (<[q := File d st]> (files w)) w in
  dirs_kept (files w) (files w') /\ dirs_kept (files w') (files w).
Proof.
  intros Hq. split; [apply dirs_kept_insert; exact Hq|apply dirs_kept_insert_file_back].
Qed.

Lemma dirs_same_delete_file w q :
  is_dir_at (files w) q = false ->
  let w' := with_files (delete q (files w)) w in
  dirs_kept (files w) (files w') /\ dirs_kept (files w') (files w).
Proof.
  intros Hq. split; [apply dirs_kept_delete; exact Hq|apply dirs_kept_delete_back].
Qed.

(** ** What each operation does, in terms of what its path names *)

Lemma os_stat_spec p w :
  os_stat p w
  = (match resolve w p with
     | inl e => Raise e
     | inr q => match files w !! q with
                | Some n => Return n
                | None => Raise (OSError ENOENT)
                end
     end, w).
Proof.
  unfold os_stat. destruct (resolve w p) as [e|q]; [reflexivity|].
  destruct (files w !! q); reflexivity.
Qed.

Lemma Path_exists_spec p w :
  Path_exists p w
  = (match stat_error w p with
     | Some e => Raise e
     | None => Return (present w p)
     end, w).
Proof.
  unfold Path_exists, try_except, bind, present, entry, stat_error. rewrite os_stat_spec.
  destruct (resolve w p) as [e|q].
  - destruct e as [args|en| | | |st]; try reflexivity.
    destruct en; reflexivity.
  - destruct (files w !! q); reflexivity.
Qed.

Lemma Path_is_dir_spec p w :
  Path_is_dir p w
  = (match stat_error w p with
     | Some e => Raise e
     | None => Return (match entry w p with Some (Dir _) => true | _ => false end)
     end, w).
Proof.
  unfold Path_is_dir, try_except, bind, entry, stat_error. rewrite os_stat_spec.
  destruct (resolve w p) as [e|q].
  - destruct e as [args|en| | | |st]; try reflexivity.
    destruct en; reflexivity.
  - destruct (files w !! q) as [[d st|st]|]; reflexivity.
Qed.

(** What it means that [exists] returned. *)
Lemma Path_exists_Return p w b w' :
  Path_exists p w = (Return b, w') <-> stat_error w p = None /\ present w p = b /\ w' = w.
Proof.
  rewrite Path_exists_spec. destruct (stat_error w p).
  - split; [discriminate|intros [[=] _]].
  - split; [intros [= <- <-]; auto|intros (_ & <- & ->); reflexivity].
Qed.

Lemma Path_stat_spec p w n :
  entry w p = Some n -> Path_stat p w = (Return (node_stat n), w).
Proof.
  unfold Path_stat, bind, entry. rewrite os_stat_spec.
  destruct (resolve w p) as [e|q]; [discriminate|].
  intros ->. reflexivity.
Qed.

Lemma Cache_exists_spec self k w :
  Cache_exists self k w
  = (match stat_error w (cache_dir self </> k) with
     | Some e => Raise e
     | None => Return (present w (cache_dir self </> k))
     end, w).
Proof. apply Path_exists_spec. Qed.

Lemma Cache_exists_Return self k w b w' :
  Cache_exists self k w = (Return b, w')
  <-> stat_error w (cache_dir self </> k) = None
      /\ present w (cache_dir self </> k) = b /\ w' = w.
Proof. apply Path_exists_Return. Qed.

Lemma Cache_load_spec self k w :
  Cache_load self k w
  = (match stat_error w (cache_dir self </> k) with
     | Some e => Raise e
     | None =>
         match entry w (cache_dir self </> k) with
         | Some (File d _) => Return (universal_newlines d)
         | Some (Dir _) => Raise (OSError EISDIR)
         | None => Raise (not_in_cache k)
         end
     end, w).
Proof.
  unfold Cache_load, bind. rewrite Path_exists_spec.
  destruct (stat_error w (cache_dir self </> k)); [reflexivity|].
  unfold present, entry.
  destruct (resolve w (cache_dir self </> k)) as [e|q] eqn:Er; [reflexivity|].
  destruct (files w !! q) as [[d st|st]|] eqn:Ef; simpl;
    unfold read_text; rewrite ?Er, ?Ef; reflexivity.
Qed.

Lemma Cache_how_old_spec self k w :
  Cache_how_old self k w
  = (match stat_error w (cache_dir self </> k) with
     | Some e => Raise e
     | None =>
         match entry w (cache_dir self </> k) with
         | Some n => Return ((clock w - created_time_of w n) * 1000)%Q
         | None => Raise (not_in_cache k)
         end
     end, w).
Proof.
  unfold Cache_how_old, bind. rewrite Path_exists_spec.
  destruct (stat_error w (cache_dir self </> k)); [reflexivity|].
  unfold present.
  destruct (entry w (cache_dir self </> k)) as [n|] eqn:E; [|reflexivity].
  unfold try_except, bind. rewrite (Path_stat_spec _ _ _ E).
  unfold get_st_birthtime, created_time_of, time_time, ret.
  destruct (has_birthtime w); [reflexivity|].
  rewrite (Path_stat_spec _ _ _ E). reflexivity.
Qed.

Lemma Cache_delete_spec self k w :
  Cache_delete self k w
  = match stat_error w (cache_dir self </> k) with
    | Some e => (Raise e, w)
    | None =>
        match resolve w (cache_dir self </> k) with
        | inr q => match files w !! q with
                   | Some (File _ _) => (Return tt, with_files (delete q (files w)) w)
                   | Some (Dir _) => (Raise (OSError EISDIR), w)
                   | None => (Raise (CacheError []), w)
                   end
        | inl _ => (Raise (CacheError []), w)
        end
    end.
Proof.
  unfold Cache_delete, bind. rewrite Path_exists_spec.
  destruct (stat_error w (cache_dir self </> k)); [reflexivity|].
  unfold present, entry.
  destruct (resolve w (cache_dir self </> k)) as [e|q] eqn:Er; [reflexivity|].
  destruct (files w !! q) as [[d st|st]|] eqn:Ef; simpl;
    unfold Path_unlink; rewrite ?Er, ?Ef; reflexivity.
Qed.

(** The three operations on an entry, by what the key names. *)
Lemma Cache_load_entry self k w n :
  entry w (cache_dir self </> k) = Some n ->
  Cache_load self k w
  = (match n with
     | File d _ => Return (universal_newlines d)
     | Dir _ => Raise (OSError EISDIR)
     end, w).
Proof.
  intros E. rewrite Cache_load_spec, (stat_error_of_entry _ _ _ E), E.
  destruct n; reflexivity.
Qed.

Lemma Cache_how_old_entry self k w n :
  entry w (cache_dir self </> k) = Some n ->
  Cache_how_old self k w = (Return ((clock w - created_time_of w n) * 1000)%Q, w).
Proof.
  intros E. rewrite Cache_how_old_spec, (stat_error_of_entry _ _ _ E), E. reflexivity.
Qed.

(** ** Writing and reading back *)

Lemma universal_newlines_no_CR s : has_CR s = false -> universal_newlines s = s.
Proof.
  induction s as [|a s IH]; simpl; [reflexivity|].
  intros H. apply orb_false_iff in H as [Ha Hs]. rewrite Ha, (IH Hs). reflexivity.
Qed.

(** Opening for writing and writing, taken together: the file holds the
    data afterwards. *)
Lemma write_text_spec p data w :
  write_text p data w
  = match resolve w p with
    | inl e => (Raise e, w)
    | inr q =>
        match files w !! q with
        | Some (Dir _) => (Raise (OSError EISDIR), w)
        | Some (File _ st) =>
            (Return tt,
             with_files (<[q := File data {| st_birthtime := st_birthtime st;
                                             st_mtime := clock w |}]> (files w)) w)
        | None =>
            if can_create (files w) q
            then (Return tt, with_files (<[q := File data (now_stamp w)]> (files w)) w)
            else (Raise (OSError ENOENT), w)
        end
    end.
Proof.
  unfold write_text, bind, open_w.
  destruct (resolve w p) as [e|q]; [reflexivity|].
  destruct (files w !! q) as [[d0 st0|st0]|]; [|reflexivity|].
  - unfold f_write. cbn [files with_files clock]. rewrite lookup_insert_eq.
    unfold with_files. cbn. rewrite insert_insert_eq. reflexivity.
  - destruct (can_create (files w) q); [|reflexivity].
    unfold f_write. cbn [files with_files clock]. rewrite lookup_insert_eq.
    unfold with_files, now_stamp. cbn. rewrite insert_insert_eq. reflexivity.
Qed.

Lemma write_text_Return p d w w' :
  write_text p d w = (Return tt, w') ->
  exists q st,
    resolve w p = inr q /\ is_dir_at (files w) q = false
    /\ w' = with_files (<[q := File d st]> (files w)) w
    /\ st_mtime st = clock w
    /\ (files w !! q = None /\ st_birthtime st = clock w
        \/ exists d0 st0, files w !! q = Some (File d0 st0)
                          /\ st_birthtime st = st_birthtime st0).
Proof.
  rewrite write_text_spec. unfold is_dir_at.
  destruct (resolve w p) as [e|q]; [discriminate|].
  destruct (files w !! q) as [[d0 st0|st0]|] eqn:Ef.
  - intros [= <-]. eexists q, _. rewrite Ef.
    split; [reflexivity|]. split; [reflexivity|]. split; [reflexivity|].
    split; [reflexivity|]. right. eauto.
  - discriminate.
  - destruct (can_create (files w) q); [|discriminate].
    intros [= <-]. eexists q, _. rewrite Ef.
    split; [reflexivity|]. split; [reflexivity|]. split; [reflexivity|].
    split; [reflexivity|]. left. split; reflexivity.
Qed.

(** [open] fails before anything is written. *)
Lemma write_text_Raise p d w e w' :
  write_text p d w = (Raise e, w') ->
  w' = w /\ (e = ValueError \/ exists en, e = OSError en).
Proof.
  rewrite write_text_spec. destruct (resolve w p) as [en|q] eqn:Hr.
  - intros [= <- <-]. split; [reflexivity|].
    destruct (resolve_errors _ _ _ Hr) as [->|[->|[->| ->]]]; eauto.
  - destruct (files w !! q) as [[d0 st0|st0]|].
    + discriminate.
    + intros [= <- <-]. eauto.
    + destruct (can_create (files w) q); [discriminate|]. intros [= <- <-]. eauto.
Qed.

Lemma entry_after_write w p q d st :
  resolve w p = inr q -> is_dir_at (files w) q = false ->
  entry (with_files (<[q := File d st]> (files w)) w) p = Some (File d st).
Proof.
  intros Hr Hq. unfold entry.
  rewrite (resolve_dirs_kept _ _ _ _ (dirs_kept_insert _ _ _ Hq) Hr).
  apply lookup_insert_eq.
Qed.

(** After a [set] that returned, the key exists and [load] yields the
    payload as text-mode reading renders it. *)
Lemma set_then_load self k d w w' :
  Cache_set self k d w = (Return tt, w') ->
  Cache_exists self k w' = (Return true, w')
  /\ Cache_load self k w' = (Return (universal_newlines d), w').
Proof.
  unfold Cache_set. intros H.
  apply write_text_Return in H as (q & st & Hr & Hq & -> & _).
  pose proof (entry_after_write _ _ _ d st Hr Hq) as He.
  rewrite Cache_exists_spec, (Cache_load_entry _ _ _ _ He).
  rewrite (stat_error_of_entry _ _ _ He). unfold present. rewrite He.
  split; reflexivity.
Qed.

(** ** The two branches of [CacheUrl.get] *)

Lemma get_hit net self url w :
  present w (cache_dir self </> _hash url) = true ->
  CacheUrl_get net self url w = Cache_load self (_hash url) w.
Proof.
  intros H. unfold CacheUrl_get, bind at 1. rewrite Cache_exists_spec.
  unfold present in H.
  destruct (entry w (cache_dir self </> _hash url)) as [n|] eqn:E; [|discriminate].
  rewrite (stat_error_of_entry _ _ _ E). unfold present. rewrite E. reflexivity.
Qed.

(** When the look-up itself fails, [get] fails with it, before any request. *)
Lemma get_stat_error net self url w e :
  stat_error w (cache_dir self </> _hash url) = Some e ->
  CacheUrl_get net self url w = (Raise e, w).
Proof.
  intros H. unfold CacheUrl_get, bind at 1. rewrite Cache_exists_spec, H. reflexivity.
Qed.

Lemma get_miss net self url w :
  Cache_exists self (_hash url) w = (Return false, w) ->
  CacheUrl_get net self url w
  = let w1 := with_sent (url :: sent w) w in
    match net url with
    | None => (Raise RequestException, w1)
    | Some r =>
        if error_status r then (Raise (HTTPError (status_code r)), w1)
        else match Cache_set self (_hash url) (text r) w1 with
             | (Return _, w2) => (Return (text r), w2)
             | (Raise e, w2) => (Raise e, w2)
             end
    end.
Proof.
  intros H. unfold CacheUrl_get, bind at 1. rewrite H.
  unfold bind, requests_get, raise_for_status, error_status.
  destruct (net url) as [r|]; [|reflexivity].
  destruct ((400 <=? status_code r)%Z && (status_code r <? 600)%Z)%bool; reflexivity.
Qed.

(** A [get] that fetched and stored a body is followed by hits that return
    the body as text-mode reading renders it, whatever the network does. *)
Lemma get_after_fetch net1 net2 self url w body w1 :
  Cache_exists self (_hash url) w = (Return false, w) ->
  CacheUrl_get net1 self url w = (Return body, w1) ->
  CacheUrl_get net2 self url w1 = (Return (universal_newlines body), w1).
Proof.
  intros Hmiss. rewrite (get_miss _ _ _ _ Hmiss). cbv zeta.
  destruct (net1 url) as [r|]; [|discriminate].
  destruct (error_status r); [discriminate|].
  destruct (Cache_set self (_hash url) (text r) _) as [[[]|e] w2] eqn:Hset; [|discriminate].
  intros [= <- <-].
  destruct (set_then_load _ _ _ _ _ Hset) as [Hex Hload].
  rewrite get_hit; [exact Hload|].
  apply Cache_exists_Return in Hex as (_ & Hex & _). exact Hex.
Qed.

(** The three ways a [get] starts. *)
Lemma exists_cases self k w :
  (exists e, stat_error w (cache_dir self </> k) = Some e
             /\ Cache_exists self k w = (Raise e, w))
  \/ (exists n, entry w (cache_dir self </> k) = Some n
                /\ Cache_exists self k w = (Return true, w))
  \/ (stat_error w (cache_dir self </> k) = None
      /\ entry w (cache_dir self </> k) = None
      /\ Cache_exists self k w = (Return false, w)).
Proof.
  rewrite Cache_exists_spec. unfold present.
  destruct (stat_error w (cache_dir self </> k)) as [e|] eqn:Hs; [eauto|].
  destruct (entry w (cache_dir self </> k)) as [n|]; eauto 10.
Qed.

(** ** Listing and emptying a directory *)

Lemma elem_of_children fs q name :
  name ∈ children fs q <-> is_Some (fs !! (name :: q)) /\ name <> dotdot.
Proof.
  unfold children. rewrite list_elem_of_omap. split.
  - intros [[l n] [Hin Hc]]. apply elem_of_map_to_list in Hin.
    unfold child_name in Hc. simpl in Hc.
    destruct l as [|nm par]; [discriminate|].
    destruct (decide (par = q)) as [->|]; [|discriminate].
    destruct (String.eqb nm dotdot) eqn:E; [discriminate|].
    injection Hc as <-. split; [eauto|]. apply String.eqb_neq. exact E.
  - intros [[n Hn] Hne]. exists (name :: q, n). split.
    + apply elem_of_map_to_list. exact Hn.
    + unfold child_name. simpl. rewrite decide_True by reflexivity.
      apply String.eqb_neq in Hne. rewrite Hne. reflexivity.
Qed.

Lemma for_each_cons {A} (x : A) l body w :
  for_each (x :: l) body w
  = match body x w with
    | (Return _, w1) => for_each l body w1
    | (Raise e, w1) => (Raise e, w1)
    end.
Proof. reflexivity. Qed.

Lemma with_files_same w : with_files (files w) w = w.
Proof. destruct w. reflexivity. Qed.

(** Where the entry [n] of a directory is looked for. *)
Lemma resolve_child w cd q n :
  resolve w cd = inr q -> is_dir_at (files w) q = true -> n <> dotdot ->
  resolve w (cd ++ [n])
  = match path_error (cd ++ [n]) with
    | Some e => inl e
    | None => if name_too_long n then inl (OSError ENAMETOOLONG) else inr (n :: q)
    end.
Proof.
  intros Hr Hd Hn. rewrite (resolve_snoc _ _ _ Hn), Hr.
  apply is_dir_at_true in Hd as [st ->]. reflexivity.
Qed.


Lemma cons_neq {A} (x : A) l : l <> x :: l.
Proof. intros H. apply (f_equal length) in H. simpl in H. lia. Qed.

(** Removing a file changes neither where a path leads nor which
    locations are directories. *)
Lemma resolve_after_unlink w cd q r d st :
  resolve w cd = inr q -> files w !! r = Some (File d st) ->
  resolve (with_files (delete r (files w)) w) cd = inr q.
Proof.
  intros Hr Hf. apply resolve_dirs_kept; [|exact Hr].
  apply dirs_kept_delete. unfold is_dir_at. rewrite Hf. reflexivity.
Qed.

Lemma Path_unlink_Return p w w' :
  Path_unlink p w = (Return tt, w') ->
  exists r d st, resolve w p = inr r /\ files w !! r = Some (File d st)
                 /\ w' = with_files (delete r (files w)) w.
Proof.
  unfold Path_unlink. destruct (resolve w p) as [e|r]; [discriminate|].
  destruct (files w !! r) as [[d st|st]|] eqn:E; try discriminate.
  intros [= <-]. eauto 6.
Qed.

Lemma Path_unlink_Raise p w e w' :
  Path_unlink p w = (Raise e, w') ->
  w' = w /\ (e = ValueError \/ exists en, e = OSError en).
Proof.
  unfold Path_unlink. destruct (resolve w p) as [e'|r] eqn:Hr.
  - intros [= <- <-]. split; [reflexivity|].
    destruct (resolve_errors _ _ _ Hr) as [->|[->|[->| ->]]]; eauto.
  - destruct (files w !! r) as [[d st|st]|]; [discriminate| |];
      intros [= <- <-]; eauto.
Qed.







(** What the loop of [clear] changes: it removes regular files that are
    entries of the directory, and nothing else. *)
Lemma unlink_children_frame cd q l : forall w o w',
  resolve w cd = inr q -> is_dir_at (files w) q = true ->
  Forall (fun n => n <> dotdot) l ->
  for_each (map (fun name => cd ++ [name]) l) Path_unlink w = (o, w') ->
  w' = with_files (files w') w
  /\ forall r,
       files w' !! r = files w !! r
       \/ (files w' !! r = None
           /\ exists name d st, r = name :: q /\ files w !! r = Some (File d st)).
Proof.
  induction l as [|n l IH]; intros w o w' Hr Hd Hall H.
  - simpl in H. injection H as _ <-. rewrite with_files_same. auto.
  - simpl map in H. rewrite for_each_cons in H.
    inversion Hall as [|? ? Hn Hall']; subst.
    destruct (Path_unlink (cd ++ [n]) w) as [[[]|e] w1] eqn:Hu.
    2:{ apply Path_unlink_Raise in Hu as [-> _]. injection H as _ <-.
        rewrite with_files_same. auto. }
    apply Path_unlink_Return in Hu as (r0 & d & st & Hrn & Ef & ->).
    rewrite (resolve_child _ _ _ _ Hr Hd Hn) in Hrn.
    destruct (path_error (cd ++ [n])); [discriminate|].
    destruct (name_too_long n); [discriminate|]. injection Hrn as <-.
    apply IH in H as (Hw & Hframe); [| | |exact Hall'].
    + simpl in Hw, Hframe. split; [exact Hw|]. intros r.
      destruct (decide (r = n :: q)) as [->|Hne].
      * right. split; [|eauto].
        destruct (Hframe (n :: q)) as [H0|[H0 _]]; [|exact H0].
        rewrite H0. apply lookup_delete_eq.
      * destruct (Hframe r) as [H0|[H0 (name & d' & st' & -> & Hf)]].
        -- left. rewrite H0. apply lookup_delete_ne. congruence.
        -- right. split; [exact H0|]. exists name, d', st'. split; [reflexivity|].
           rewrite lookup_delete_ne in Hf by congruence. exact Hf.
    + eapply resolve_after_unlink; eauto.
    + simpl. unfold is_dir_at in *. rewrite lookup_delete_ne; [exact Hd|].
      intros E. symmetry in E. exact (cons_neq _ _ E).
Qed.

Lemma children_not_dotdot fs q : Forall (fun n => n <> dotdot) (children fs q).
Proof. apply Forall_forall. intros n Hn. apply elem_of_children in Hn. tauto. Qed.

Lemma Cache_clear_spec self w :
  Cache_clear self w
  = match resolve w (cache_dir self) with
    | inl e => (Raise e, w)
    | inr q =>
        match files w !! q with
        | Some (Dir _) =>
            for_each (map (fun name => cache_dir self ++ [name]) (children (files w) q))
                     Path_unlink w
        | Some (File _ _) => (Raise (OSError ENOTDIR), w)
        | None => (Raise (OSError ENOENT), w)
        end
    end.
Proof.
  unfold Cache_clear, bind, Path_iterdir.
  destruct (resolve w (cache_dir self)) as [e|q]; [reflexivity|].
  destruct (files w !! q) as [[d st|st]|]; reflexivity.
Qed.



(** ** Keys that have no entry *)

Lemma entry_with_clock t w p : entry (with_clock t w) p = entry w p.
Proof. reflexivity. Qed.


Lemma for_each_invariant {A} (P : World -> Prop) (body : A -> M unit) l :
  (forall x w o w', body x w = (o, w') -> P w -> P w') ->
  forall w o w', for_each l body w = (o, w') -> P w -> P w'.
Proof.
  intros Hbody. induction l as [|x l IH]; intros w o w' H HP.
  - injection H as _ <-. exact HP.
  - rewrite for_each_cons in H.
    destruct (body x w) as [[[]|e] w1] eqn:Hb.
    + eapply IH; [exact H|]. eapply Hbody; eauto.
    + injection H as _ <-. eapply Hbody; eauto.
Qed.

Lemma Path_unlink_world p w o w' :
  Path_unlink p w = (o, w') ->
  w' = w \/ exists r d st, files w !! r = Some (File d st)
                           /\ w' = with_files (delete r (files w)) w.
Proof.
  unfold Path_unlink. destruct (resolve w p) as [e|r]; [intros [= _ <-]; auto|].
  destruct (files w !! r) as [[d st|st]|] eqn:E; intros [= _ <-]; eauto 6.
Qed.

Lemma Cache_clear_world_invariant (P : World -> Prop) self w o w' :
  (forall w r d st, files w !! r = Some (File d st) -> P w ->
                    P (with_files (delete r (files w)) w)) ->
  Cache_clear self w = (o, w') -> P w -> P w'.
Proof.
  intros Hdel. rewrite Cache_clear_spec.
  destruct (resolve w (cache_dir self)) as [e|q]; [intros [= _ <-]; auto|].
  destruct (files w !! q) as [[d st|st]|]; try (intros [= _ <-]; auto).
  apply for_each_invariant. intros x w1 o1 w2 Hu HP.
  apply Path_unlink_world in Hu as [->|(r & d & st1 & Hf & ->)]; eauto.
Qed.

Lemma resolve_plain_inj w cd k name q :
  k <> dotdot -> name <> dotdot ->
  resolve w (cd ++ [k]) = inr q -> resolve w (cd ++ [name]) = inr q -> k = name.
Proof.
  intros Hk Hn. rewrite !resolve_inr, !walk_snoc by assumption.
  intros [_ H1] [_ H2].
  destruct (walk (files w) [] cd) as [e|r]; [discriminate|].
  destruct (files w !! r) as [[d st|st]|]; try discriminate.
  destruct (name_too_long k); [discriminate|].
  destruct (name_too_long name); [discriminate|]. congruence.
Qed.

(** The key is looked up without an error and names nothing: what
    [exists] answers with false. *)
Lemma exists_false self k w :
  Cache_exists self k w = (Return false, w)
  <-> stat_error w (cache_dir self </> k) = None /\ entry w (cache_dir self </> k) = None.
Proof.
  rewrite Cache_exists_Return. unfold present.
  destruct (entry w (cache_dir self </> k)).
  - split; [intros (_ & [=] & _)|intros [_ [=]]].
  - split; [intros (H & _ & _); auto|intros [H _]; auto].
Qed.




(** What the three operations do for a key for which [exists] is false. *)
Lemma not_found self k w :
  Cache_exists self k w = (Return false, w) ->
  Cache_load self k w = (Raise (not_in_cache k), w)
  /\ Cache_how_old self k w = (Raise (not_in_cache k), w)
  /\ Cache_delete self k w = (Raise (CacheError []), w).
Proof.
  rewrite exists_false. intros [Hs H].
  rewrite Cache_load_spec, Cache_how_old_spec, Cache_delete_spec, Hs, H.
  repeat split.
  unfold entry in H. destruct (resolve w (cache_dir self </> k)) as [e|q]; [reflexivity|].
  rewrite H. reflexivity.
Qed.


Lemma resolve_no_NUL w p q : resolve w p = inr q -> existsb has_NUL p = false.
Proof. rewrite resolve_inr, path_error_None. tauto. Qed.

(** What a plain key leads to in a namespace directory that is there. *)
Lemma resolve_plain_key self w q k :
  is_plain_name k = true ->
  resolve w (cache_dir self) = inr q -> is_dir_at (files w) q = true ->
  resolve w (cache_dir self </> k)
  = if has_NUL k then inl ValueError
    else if (PATH_MAX <=? str_length (cache_dir self ++ [k]))%Z || name_too_long k
         then inl (OSError ENAMETOOLONG)
         else inr (k :: q).
Proof.
  intros Hk Hr Hd. destruct (plain_name_parts _ Hk) as (_ & _ & Hne).
  rewrite (joinpath_plain _ _ Hk), (resolve_child _ _ _ _ Hr Hd Hne).
  unfold path_error. rewrite existsb_app, (resolve_no_NUL _ _ _ Hr). simpl.
  rewrite orb_false_r. destruct (has_NUL k); [reflexivity|].
  destruct (PATH_MAX <=? str_length (cache_dir self ++ [k]))%Z; [reflexivity|].
  destruct (name_too_long k); reflexivity.
Qed.



(** ** Claims about [CacheUrl.get] *)

Lemma outcome_and_world {A} (r : outcome A * World) o :
  fst r = o -> r = (o, snd r).
Proof. intros <-. apply surjective_pairing. Qed.

Lemma Cache_exists_fst self k w o :
  fst (Cache_exists self k w) = o -> Cache_exists self k w = (o, w).
Proof. rewrite Cache_exists_spec. intros <-. reflexivity. Qed.

Lemma Cache_exists_with_sent self k l w :
  Cache_exists self k (with_sent l w) = (fst (Cache_exists self k w), with_sent l w).
Proof. rewrite !Cache_exists_spec. reflexivity. Qed.




(** The key of a URL is a name every directory accepts. *)
Lemma hash_accepted url : accepted_name (_hash url) = true.
Proof.
  unfold accepted_name, name_too_long, _hash. rewrite hexdigest_length.
  unfold MD5.hexdigest. rewrite hex_no_NUL. reflexivity.
Qed.

(** Where the key of a URL leads in a namespace directory that is there. *)
Lemma resolve_hash self w q url :
  resolve w (cache_dir self) = inr q -> is_dir_at (files w) q = true ->
  resolve w (cache_dir self </> _hash url)
  = if (PATH_MAX <=? str_length (cache_dir self ++ [_hash url]))%Z
    then inl (OSError ENAMETOOLONG)
    else inr (_hash url :: q).
Proof.
  intros Hr Hd. rewrite (resolve_plain_key _ _ _ _ (hash_plain url) Hr Hd).
  pose proof (hash_accepted url) as Ha. unfold accepted_name in Ha.
  apply andb_true_iff in Ha as [Hn Hl]. apply negb_true_iff in Hn, Hl.
  rewrite Hn, Hl, orb_false_r. reflexivity.
Qed.

(** C1, at the failing input. The server answers 200 with the body
    [a,b\r\n1,2]. The first [get] misses, fetches, stores and returns that
    body. The second [get], with the network down, succeeds without a
    request and leaves the world as it is, but returns [a,b\n1,2], which is
    not the body of the first call. *)
Theorem get_twice_crlf_body :
  let r1 := CacheUrl_get net_crlf test_app test_url fresh_world in
  let r2 := CacheUrl_get net_down test_app test_url (snd r1) in
  CacheUrl_exists test_app test_url fresh_world = (Return false, fresh_world)
  /\ fst r1 = Return crlf_body
  /\ r2 = (Return lf_body, snd r1)
  /\ lf_body <> crlf_body.
Proof.
  cbv zeta.
  assert (Hmiss : Cache_exists test_app (_hash test_url) fresh_world
                  = (Return false, fresh_world))
    by (apply Cache_exists_fst; vm_compute; reflexivity).
  assert (H1 : fst (CacheUrl_get net_crlf test_app test_url fresh_world)
               = Return crlf_body) by (vm_compute; reflexivity).
  split; [|split; [exact H1|split]].
  - exact Hmiss.
  - apply outcome_and_world in H1.
    exact (get_after_fetch _ net_down _ _ _ _ _ Hmiss H1).
  - discriminate.
Qed.

(** C2, counterexample. A response with status 300 is not a success (it is
    not of the class 2xx), yet [raise_for_status] accepts it: [get] returns
    its body and the body is stored. *)
Lemma status_300_is_stored :
  let r := CacheUrl_get net_300 test_app test_url fresh_world in
  net_300 test_url = Some {| status_code := 300; text := "x" |}
  /\ success_status {| status_code := 300; text := "x" |} = false
  /\ CacheUrl_exists test_app test_url fresh_world = (Return false, fresh_world)
  /\ fst r = Return "x"
  /\ CacheUrl_exists test_app test_url (snd r) = (Return true, snd r).
Proof.
  cbv zeta. split; [reflexivity|]. split; [reflexivity|].
  unfold CacheUrl_exists.
  split; [apply Cache_exists_fst; vm_compute; reflexivity|].
  split; [vm_compute; reflexivity|].
  apply Cache_exists_fst. vm_compute. reflexivity.
Qed.

(** C2, as amended. For a URL that is not cached, when the request fails or
    the response has a status from 400 to 599, [get] raises a
    [RequestException] ([NetworkFailure]) after that single request, the
    files are unchanged, and [exists(url)] is still false. *)
Theorem get_error_leaves_cache net self url w :
  CacheUrl_exists self url w = (Return false, w) ->
  (net url = None
   \/ exists r, net url = Some r /\ (400 <= status_code r < 600)%Z) ->
  exists e w',
    CacheUrl_get net self url w = (Raise e, w')
    /\ is_RequestException e = true
    /\ files w' = files w
    /\ sent w' = url :: sent w
    /\ CacheUrl_exists self url w' = (Return false, w').
Proof.
  unfold CacheUrl_exists. intros Hmiss Hnet.
  rewrite (get_miss _ _ _ _ Hmiss). cbv zeta.
  destruct Hnet as [->|(r & -> & Hlo & Hhi)].
  - eexists _, _. split; [reflexivity|]. split; [reflexivity|].
    split; [reflexivity|]. split; [reflexivity|].
    rewrite Cache_exists_with_sent, Hmiss. reflexivity.
  - unfold error_status.
    apply Z.leb_le in Hlo. apply Z.ltb_lt in Hhi. rewrite Hlo, Hhi. simpl.
    eexists _, _. split; [reflexivity|]. split; [reflexivity|].
    split; [reflexivity|]. split; [reflexivity|].
    rewrite Cache_exists_with_sent, Hmiss. reflexivity.
Qed.

Lemma get_error_leaves_cache_witness :
  CacheUrl_exists test_app test_url fresh_world = (Return false, fresh_world)
  /\ exists e w',
       CacheUrl_get net_500 test_app test_url fresh_world = (Raise e, w')
       /\ is_RequestException e = true
       /\ files w' = files fresh_world
       /\ sent w' = test_url :: sent fresh_world
       /\ CacheUrl_exists test_app test_url w' = (Return false, w').
Proof.
  assert (H : CacheUrl_exists test_app test_url fresh_world = (Return false, fresh_world))
    by (apply Cache_exists_fst; vm_compute; reflexivity).
  split; [exact H|].
  apply (get_error_leaves_cache net_500 test_app test_url fresh_world H).
  right. exists {| status_code := 500; text := "oops" |}.
  split; [reflexivity|]. simpl. lia.
Defined.

(** C3, at the failing input. [set("file.txt", "a\rb")] returns and the key
    exists, but [load("file.txt")] returns [a\nb], which is not the payload. *)
Theorem set_then_load_cr_payload :
  let r := Cache_set test_app "file.txt" cr_payload fresh_world in
  fst r = Return tt
  /\ Cache_exists test_app "file.txt" (snd r) = (Return true, snd r)
  /\ Cache_load test_app "file.txt" (snd r) = (Return cr_payload_read, snd r)
  /\ cr_payload_read <> cr_payload.
Proof.
  cbv zeta.
  assert (H : fst (Cache_set test_app "file.txt" cr_payload fresh_world) = Return tt)
    by (vm_compute; reflexivity).
  split; [exact H|]. apply outcome_and_world in H.
  destruct (set_then_load _ _ _ _ _ H) as [Hex Hload].
  split; [exact Hex|]. split; [exact Hload|]. discriminate.
Qed.

(** C9. For a URL that is present in the cache, [get] is a read: whatever
    the network would answer, it returns what [load] returns and leaves the
    world as it is (no request is recorded, no file or time stamp changes),
    so [load] and [how_old] give afterwards what they gave before. *)
Theorem get_hit_is_pure_read net self url w :
  CacheUrl_exists self url w = (Return true, w) ->
  let w' := snd (CacheUrl_get net self url w) in
  CacheUrl_get net self url w = CacheUrl_load self url w
  /\ w' = w
  /\ sent w' = sent w
  /\ files w' = files w
  /\ CacheUrl_load self url w' = CacheUrl_load self url w
  /\ CacheUrl_how_old self url w' = CacheUrl_how_old self url w.
Proof.
  unfold CacheUrl_exists. intros Hhit. apply Cache_exists_Return in Hhit as (_ & Hhit & _).
  cbv zeta. rewrite (get_hit _ _ _ _ Hhit). unfold CacheUrl_load.
  assert (Hw : snd (Cache_load self (_hash url) w) = w)
    by (rewrite Cache_load_spec; reflexivity).
  rewrite Hw. repeat split.
Qed.

Lemma get_hit_is_pure_read_witness :
  let w := snd (CacheUrl_get net_crlf test_app test_url fresh_world) in
  let w' := snd (CacheUrl_get net_down test_app test_url w) in
  CacheUrl_exists test_app test_url w = (Return true, w)
  /\ CacheUrl_get net_down test_app test_url w = CacheUrl_load test_app test_url w
  /\ w' = w
  /\ sent w' = sent w
  /\ files w' = files w
  /\ CacheUrl_load test_app test_url w' = CacheUrl_load test_app test_url w
  /\ CacheUrl_how_old test_app test_url w' = CacheUrl_how_old test_app test_url w.
Proof.
  cbv zeta.
  assert (H : CacheUrl_exists test_app test_url
                (snd (CacheUrl_get net_crlf test_app test_url fresh_world))
              = (Return true, snd (CacheUrl_get net_crlf test_app test_url fresh_world)))
    by (apply Cache_exists_fst; vm_compute; reflexivity).
  split; [exact H|].
  exact (get_hit_is_pure_read net_down test_app test_url _ H).
Defined.



(** ** The key of a URL *)


(** ** Keys with a path separator *)

(** C10. [set] does not check that the key is a file name. With the key
    [sub/x] in a namespace directory without a directory [sub], it raises
    [FileNotFoundError] (an [OSError]) and stores nothing. A plain file name
    that the file system accepts, in contrast, is stored as the file of that
    name directly inside the namespace directory, unless a directory of that
    name is in the way. *)
Theorem set_with_separator_raises :
  (exists key,
     has_slash key = true
     /\ forall data,
          Cache_set test_app key data fresh_world = (Raise (OSError ENOENT), fresh_world)
          /\ Cache_exists test_app key fresh_world = (Return false, fresh_world))
  /\ (forall self w q k data,
        is_plain_name k = true ->
        accepted_name k = true ->
        (str_length (cache_dir self ++ [k]) < PATH_MAX)%Z ->
        resolve w (cache_dir self) = inr q ->
        is_dir_at (files w) q = true ->
        is_dir_at (files w) (k :: q) = false ->
        exists st,
          Cache_set self k data w
          = (Return tt, with_files (<[k :: q := File data st]> (files w)) w)).
Proof.
  split.
  - exists "sub/x". split; [reflexivity|]. intros data.
    assert (Hr : resolve fresh_world (cache_dir test_app </> "sub/x")
                 = inl (OSError ENOENT))
      by (vm_compute; reflexivity).
    split.
    + unfold Cache_set. rewrite write_text_spec, Hr. reflexivity.
    + apply exists_false. unfold stat_error, entry. rewrite Hr. split; reflexivity.
  - intros self w q k data Hk Ha Hlen Hr Hd Hfree.
    unfold accepted_name in Ha. apply andb_true_iff in Ha as [Hn Hl].
    apply negb_true_iff in Hn, Hl.
    unfold Cache_set. rewrite write_text_spec.
    rewrite (resolve_plain_key _ _ _ _ Hk Hr Hd), Hn, Hl, orb_false_r.
    destruct (Z.leb_spec PATH_MAX (str_length (cache_dir self ++ [k]))); [lia|].
    unfold is_dir_at in Hfree.
    destruct (files w !! (k :: q)) as [[d0 st0|st0]|]; [eauto|discriminate|].
    simpl. rewrite Hd. eauto.
Qed.

Lemma set_with_separator_raises_witness :
  is_plain_name "file.txt" = true
  /\ exists st,
       Cache_set test_app "file.txt" "hello" fresh_world
       = (Return tt,
          with_files (<[ ["file.txt"; "test_app"; "cache"; "tmp"] := File "hello" st]>
                        (files fresh_world)) fresh_world).
Proof.
  split; [reflexivity|].
  apply (proj2 set_with_separator_raises test_app fresh_world
           ["test_app"; "cache"; "tmp"] "file.txt" "hello").
  - reflexivity.
  - reflexivity.
  - vm_compute. reflexivity.
  - vm_compute. reflexivity.
  - vm_compute. reflexivity.
  - vm_compute. reflexivity.
Defined.

(** ** Ages *)

Lemma entry_Some_lookup w p n : entry w p = Some n -> exists q, files w !! q = Some n.
Proof.
  unfold entry. destruct (resolve w p) as [e|q]; [discriminate|]. eauto.
Qed.

Lemma age_nonneg (now created : Q) :
  (created <= now)%Q -> (0 <= (now - created) * 1000)%Q.
Proof. intros H. lra. Qed.

Lemma timestamps_past_delete w r :
  timestamps_past w -> timestamps_past (with_files (delete r (files w)) w).
Proof.
  intros H q n Hq. simpl in *. apply lookup_delete_Some in Hq as [_ Hq]. eauto.
Qed.

Lemma timestamps_past_after_call self c w :
  forward_call c -> timestamps_past w -> timestamps_past (after_call self c w).
Proof.
  intros Hc Hw. destruct c as [name data|name|name|name|name| |dt]; simpl in *.
  - unfold Cache_set.
    destruct (write_text (cache_dir self </> name) data w) as [[[]|e] w'] eqn:Hs.
    + apply write_text_Return in Hs as (q & st & _ & _ & -> & Hm & Hb).
      intros r n. simpl. destruct (decide (q = r)) as [<-|Hne].
      * rewrite lookup_insert_eq. intros [= <-]. simpl. rewrite Hm.
        split; [|apply Qle_refl].
        destruct Hb as [[_ ->]|(d0 & st0 & Hf & ->)]; [apply Qle_refl|].
        apply (Hw _ _ Hf).
      * rewrite lookup_insert_ne by exact Hne. apply Hw.
    + apply write_text_Raise in Hs as [-> _]. exact Hw.
  - rewrite Cache_exists_spec. exact Hw.
  - rewrite Cache_load_spec. exact Hw.
  - rewrite Cache_how_old_spec. exact Hw.
  - rewrite Cache_delete_spec.
    destruct (stat_error w (cache_dir self </> name)); [exact Hw|].
    destruct (resolve w (cache_dir self </> name)) as [e|q]; [exact Hw|].
    destruct (files w !! q) as [[d st|st]|]; try exact Hw.
    apply timestamps_past_delete. exact Hw.
  - destruct (Cache_clear self w) as [o w'] eqn:Hclear. simpl.
    apply (Cache_clear_world_invariant timestamps_past self w o w');
      [|exact Hclear|exact Hw].
    intros w1 r d st _. apply timestamps_past_delete.
  - intros q n Hq. simpl in *. destruct (Hw q n Hq) as [Hb Hm]. split; lra.
Qed.

(** Histories in which time does not run backwards keep every time stamp in
    the past. *)
Lemma timestamps_past_after_calls self cs : forall w,
  Forall forward_call cs -> timestamps_past w ->
  timestamps_past (after_calls self cs w).
Proof.
  induction cs as [|c cs IH]; intros w Hcs Hw; [exact Hw|].
  inversion Hcs; subst. simpl. apply IH; [assumption|].
  apply timestamps_past_after_call; assumption.
Qed.

(** C8, as amended. [how_old] of an existing entry returns the clock minus
    the creation time of the entry (its modification time where
    [st_birthtime] is missing), times 1000. That age is not negative exactly
    when the time stamp is not later than the clock. So it is not negative
    in a world whose time stamps are not in the future, and in particular
    after a [set] that returned in such a world, however much time has
    passed since. *)
Theorem how_old_is_age_in_ms self k w :
  (forall n, entry w (cache_dir self </> k) = Some n ->
     created_time_of w n
     = (if has_birthtime w then st_birthtime (node_stat n) else st_mtime (node_stat n))
     /\ Cache_how_old self k w
        = (Return ((clock w - created_time_of w n) * 1000)%Q, w)
     /\ ((0 <= (clock w - created_time_of w n) * 1000)%Q
         <-> (created_time_of w n <= clock w)%Q))
  /\ (timestamps_past w ->
      (forall n, entry w (cache_dir self </> k) = Some n ->
                 (0 <= (clock w - created_time_of w n) * 1000)%Q)
      /\ (forall data w1 dt,
            (0 <= dt)%Q ->
            Cache_set self k data w = (Return tt, w1) ->
            let w2 := with_clock (clock w1 + dt)%Q w1 in
            exists age,
              Cache_how_old self k w2 = (Return age, w2) /\ (0 <= age)%Q)).
Proof.
  split.
  - intros n Hn. split; [reflexivity|]. rewrite (Cache_how_old_entry _ _ _ _ Hn).
    split; [reflexivity|]. split; intros H; lra.
  - intros Hw. split.
    + intros n Hn. apply age_nonneg.
      apply entry_Some_lookup in Hn as [q Hq]. destruct (Hw q n Hq) as [Hb Hm].
      unfold created_time_of. destruct (has_birthtime w); assumption.
    + intros data w1 dt Hdt Hset w2.
      assert (Hw2 : timestamps_past w2).
      { replace w2 with (after_calls self [call_set k data; time_passes dt] w)
          by (simpl; rewrite Hset; reflexivity).
        apply timestamps_past_after_calls; [|exact Hw].
        repeat constructor. exact Hdt. }
      unfold Cache_set in Hset.
      apply write_text_Return in Hset as (q & st & Hr & Hq & Hw1 & _).
      assert (He : entry w2 (cache_dir self </> k) = Some (File data st)).
      { unfold w2. rewrite entry_with_clock, Hw1. apply entry_after_write; assumption. }
      rewrite (Cache_how_old_entry _ _ _ _ He). eexists. split; [reflexivity|].
      apply age_nonneg. apply entry_Some_lookup in He as [r Hr'].
      destruct (Hw2 r _ Hr') as [Hb Hm].
      unfold created_time_of. destruct (has_birthtime w2); assumption.
Qed.

(** ** Making the namespace directory *)

Lemma mkdir_parents_rev_unfold rp :
  mkdir_parents_rev rp
  = try_except (os_mkdir (rev rp))
      (fun e => match e with
                | OSError ENOENT =>
                    match rp with
                    | [] => raise e
                    | _ :: rparent => mkdir_parents_rev rparent >> mkdir_exist_ok (rev rp)
                    end
                | OSError _ => accept_existing_dir (rev rp) e
                | _ => raise e
                end).
Proof. destruct rp; reflexivity. Qed.

Lemma resolve_ValueError w p : resolve w p = inl ValueError -> existsb has_NUL p = true.
Proof.
  unfold resolve, path_error. destruct (existsb has_NUL p); [reflexivity|].
  destruct (PATH_MAX <=? str_length p)%Z; [discriminate|].
  destruct (walk (files w) [] p); discriminate.
Qed.

Lemma resolve_OSError w p en : resolve w p = inl (OSError en) -> existsb has_NUL p = false.
Proof.
  unfold resolve, path_error. destruct (existsb has_NUL p); [discriminate|reflexivity].
Qed.

Lemma os_mkdir_result p w o w' :
  os_mkdir p w = (o, w') ->
  (o = Return tt
   /\ exists q, resolve w p = inr q /\ files w !! q = None
                /\ can_create (files w) q = true
                /\ w' = with_files (<[q := Dir (now_stamp w)]> (files w)) w)
  \/ (w' = w
      /\ ((exists en, o = Raise (OSError en) /\ existsb has_NUL p = false)
          \/ (o = Raise ValueError /\ existsb has_NUL p = true))).
Proof.
  unfold os_mkdir. destruct (resolve w p) as [e|q] eqn:Hr.
  - intros [= <- <-]. right. split; [reflexivity|].
    destruct (resolve_errors _ _ _ Hr) as [->|[->|[->| ->]]];
      try (left; eexists; split; [reflexivity|exact (resolve_OSError _ _ _ Hr)]).
    right. split; [reflexivity|exact (resolve_ValueError _ _ Hr)].
  - pose proof (resolve_no_NUL _ _ _ Hr) as Hn.
    destruct (files w !! q) as [n|] eqn:Hq; [intros [= <- <-]; eauto 6|].
    destruct (can_create (files w) q) eqn:Hc; intros [= <- <-]; [|eauto 6].
    left. split; [reflexivity|]. exists q. auto.
Qed.

Lemma accept_existing_dir_spec p e w :
  accept_existing_dir p e w
  = (match stat_error w p with
     | Some e' => Raise e'
     | None =>
         match entry w p with
         | Some (Dir _) => Return tt
         | _ => Raise e
         end
     end, w).
Proof.
  unfold accept_existing_dir, bind. rewrite Path_is_dir_spec.
  destruct (stat_error w p); [reflexivity|].
  destruct (entry w p) as [[d st|st]|]; reflexivity.
Qed.

(** What [Path.mkdir] does when [os.mkdir] raised an [OSError] that is not
    [FileNotFoundError], with [exist_ok] set. *)
Lemma accept_existing_dir_result p en w o w' :
  accept_existing_dir p (OSError en) w = (o, w') ->
  w' = w
  /\ ((o = Return tt /\ exists st, entry w p = Some (Dir st))
      \/ exists en', o = Raise (OSError en')).
Proof.
  rewrite accept_existing_dir_spec.
  destruct (stat_error w p) as [e'|] eqn:Hs.
  - apply stat_error_cases in Hs as ->. intros [= <- <-]. eauto.
  - destruct (entry w p) as [[d st|st]|]; intros [= <- <-]; eauto.
Qed.

Lemma entry_after_mkdir w p q st :
  resolve w p = inr q -> files w !! q = None ->
  entry (with_files (<[q := Dir st]> (files w)) w) p = Some (Dir st).
Proof.
  intros Hr Hq. unfold entry.
  rewrite (resolve_dirs_kept w _ _ q); [apply lookup_insert_eq| |exact Hr].
  apply dirs_kept_insert. unfold is_dir_at. rewrite Hq. reflexivity.
Qed.

Lemma mkdir_exist_ok_result p w o w' :
  mkdir_exist_ok p w = (o, w') -> mkdir_outcome p w o w'.
Proof.
  unfold mkdir_exist_ok, try_except, mkdir_outcome.
  destruct (os_mkdir p w) as [o1 w1] eqn:Hm.
  apply os_mkdir_result in Hm
    as [[-> (q & Hr & Hq & _ & ->)]|[-> [(en & -> & _)|[-> Hn]]]].
  - intros [= <- <-]. left. split; [reflexivity|].
    eexists. apply entry_after_mkdir; assumption.
  - destruct en; try (intros [= <- <-]; eauto);
      intros H; apply accept_existing_dir_result in H as [-> [[-> Hst]|[en' ->]]]; eauto.
  - intros [= <- <-]. auto.
Qed.

Lemma mkdir_parents_rev_result rp : forall w o w',
  mkdir_parents_rev rp w = (o, w') -> mkdir_outcome (rev rp) w o w'.
Proof.
  unfold mkdir_outcome.
  induction rp as [|c rp IH]; intros w o w'; rewrite mkdir_parents_rev_unfold;
    unfold try_except;
    (destruct (os_mkdir _ w) as [o1 w1] eqn:Hm;
     apply os_mkdir_result in Hm
       as [[-> (q & Hr & Hq & _ & ->)]|[-> [(en & -> & Hnn)|[-> Hn]]]];
     [intros [= <- <-]; left; split; [reflexivity|];
      eexists; apply entry_after_mkdir; assumption| |intros [= <- <-]; auto]).
  - destruct en; try (intros [= <- <-]; eauto);
      intros H; apply accept_existing_dir_result in H as [-> [[-> Hst]|[en' ->]]]; eauto.
  - destruct en;
      try (intros H; apply accept_existing_dir_result in H as [-> [[-> Hst]|[en' ->]]];
           eauto).
    unfold bind. destruct (mkdir_parents_rev rp w) as [[[]|e1] w2] eqn:Hp.
    + intros H. apply mkdir_exist_ok_result in H as [H|[H|(_ & _ & Hn)]]; [auto|auto|].
      congruence.
    + intros [= <- <-]. apply IH in Hp as [[[=] _]|[Hp|(_ & _ & Hn)]]; [auto|].
      simpl rev in Hnn. rewrite existsb_app in Hnn.
      apply orb_false_iff in Hnn as [Hnn _]. congruence.
Qed.

Lemma mkdir_handler_world p e w o w' :
  match e with
  | OSError ENOENT => raise e
  | OSError _ => accept_existing_dir p e
  | _ => raise e
  end w = (o, w') -> w' = w.
Proof.
  destruct e as [args|en| | | |st]; try (intros [= _ <-]; reflexivity).
  destruct en; try (intros [= _ <-]; reflexivity);
    rewrite accept_existing_dir_spec; intros [= _ <-]; reflexivity.
Qed.

Lemma os_mkdir_world (P : World -> Prop) p w o w' :
  (forall w q, files w !! q = None -> P w ->
               P (with_files (<[q := Dir (now_stamp w)]> (files w)) w)) ->
  os_mkdir p w = (o, w') -> P w -> P w'.
Proof.
  intros Hins Hm HP.
  apply os_mkdir_result in Hm as [[_ (q & _ & Hq & _ & ->)]|[-> _]]; auto.
Qed.

Lemma mkdir_exist_ok_invariant (P : World -> Prop) p w o w' :
  (forall w q, files w !! q = None -> P w ->
               P (with_files (<[q := Dir (now_stamp w)]> (files w)) w)) ->
  mkdir_exist_ok p w = (o, w') -> P w -> P w'.
Proof.
  intros Hins. unfold mkdir_exist_ok, try_except.
  destruct (os_mkdir p w) as [[[]|e] w1] eqn:Hm.
  - intros [= _ <-] HP. exact (os_mkdir_world P _ _ _ _ Hins Hm HP).
  - intros H HP. apply mkdir_handler_world in H as ->.
    exact (os_mkdir_world P _ _ _ _ Hins Hm HP).
Qed.

Lemma mkdir_parents_rev_invariant (P : World -> Prop) rp :
  (forall w q, files w !! q = None -> P w ->
               P (with_files (<[q := Dir (now_stamp w)]> (files w)) w)) ->
  forall w o w', mkdir_parents_rev rp w = (o, w') -> P w -> P w'.
Proof.
  intros Hins. induction rp as [|c rp IH]; intros w o w';
    rewrite mkdir_parents_rev_unfold; unfold try_except;
    destruct (os_mkdir _ w) as [[[]|e] w1] eqn:Hm;
    try (intros [= _ <-] HP; exact (os_mkdir_world P _ _ _ _ Hins Hm HP)).
  - intros H HP. apply (mkdir_handler_world (rev [])) in H as ->.
    exact (os_mkdir_world P _ _ _ _ Hins Hm HP).
  - intros H HP. pose proof (os_mkdir_world P _ _ _ _ Hins Hm HP) as HP1.
    destruct e as [args|en| | | |st];
      try (injection H as _ <-; exact HP1).
    destruct en;
      try (rewrite accept_existing_dir_spec in H; injection H as _ <-; exact HP1).
    unfold bind in H. destruct (mkdir_parents_rev rp w1) as [[[]|e1] w2] eqn:Hp.
    + eapply mkdir_exist_ok_invariant; eauto.
    + injection H as _ <-. eauto.
Qed.

(** When the path already names a directory nothing is done. *)
Lemma mkdir_parents_rev_existing rp w st :
  entry w (rev rp) = Some (Dir st) -> mkdir_parents_rev rp w = (Return tt, w).
Proof.
  intros He. rewrite mkdir_parents_rev_unfold. unfold try_except, os_mkdir.
  pose proof He as He'. unfold entry in He'.
  destruct (resolve w (rev rp)) as [e|q] eqn:Hr; [discriminate|]. rewrite He'.
  rewrite accept_existing_dir_spec, (stat_error_of_entry _ _ _ He), He. reflexivity.
Qed.

Lemma suffix_cons_cases (q : list string) c rp :
  q `suffix_of` c :: rp -> q = c :: rp \/ q `suffix_of` rp.
Proof.
  intros [[|x k] E]; simpl in E; [left; auto|].
  right. injection E as _ ->. exists k. reflexivity.
Qed.

(** A path without [..] leads to the location spelled by its components,
    through directories only, and all its names are accepted. *)
Lemma walk_rev_inr fs rp : forall r,
  dotdot ∉ rp -> walk fs [] (rev rp) = inr r ->
  r = rp /\ forall q, q `suffix_of` rp -> q <> rp -> is_dir_at fs q = true.
Proof.
  induction rp as [|c rp IH]; intros r Hdd.
  - simpl. intros [= <-]. split; [reflexivity|].
    intros q Hq Hne. apply suffix_nil_inv in Hq. contradiction.
  - apply not_elem_of_cons in Hdd as [Hc Hdd]. simpl rev.
    rewrite walk_snoc by (intros E; apply Hc; symmetry; exact E).
    destruct (walk fs [] (rev rp)) as [e|q0] eqn:Hw; [discriminate|].
    destruct (IH q0 Hdd eq_refl) as [-> Hdirs].
    destruct (fs !! rp) as [[d st|st]|] eqn:Hrp; try discriminate.
    destruct (name_too_long c); [discriminate|].
    intros [= <-]. split; [reflexivity|]. intros q Hq Hne.
    apply suffix_cons_cases in Hq as [->|Hq]; [contradiction|].
    destruct (decide (q = rp)) as [->|Hne']; [|auto].
    unfold is_dir_at. rewrite Hrp. reflexivity.
Qed.

Lemma walk_rev_ENOTDIR fs rp :
  dotdot ∉ rp -> walk fs [] (rev rp) = inl ENOTDIR ->
  exists q d st, q `suffix_of` rp /\ fs !! q = Some (File d st).
Proof.
  induction rp as [|c rp IH]; intros Hdd; [discriminate|].
  apply not_elem_of_cons in Hdd as [Hc Hdd]. simpl rev.
  rewrite walk_snoc by (intros E; apply Hc; symmetry; exact E).
  destruct (walk fs [] (rev rp)) as [e|q0] eqn:Hw.
  - intros [= ->]. destruct (IH Hdd eq_refl) as (q & d & st & Hq & Hf).
    exists q, d, st. split; [apply suffix_cons_r; exact Hq|exact Hf].
  - destruct (walk_rev_inr _ _ _ Hdd Hw) as [-> _].
    destruct (fs !! rp) as [[d st|st]|] eqn:Hrp; try discriminate.
    + intros _. exists rp, d, st. split; [apply suffix_cons_r; reflexivity|exact Hrp].
    + destruct (name_too_long c); discriminate.
Qed.

Lemma walk_rev_ENAMETOOLONG fs rp :
  dotdot ∉ rp -> walk fs [] (rev rp) = inl ENAMETOOLONG ->
  exists c, c ∈ rp /\ name_too_long c = true.
Proof.
  induction rp as [|c rp IH]; intros Hdd; [discriminate|].
  apply not_elem_of_cons in Hdd as [Hc Hdd]. simpl rev.
  rewrite walk_snoc by (intros E; apply Hc; symmetry; exact E).
  destruct (walk fs [] (rev rp)) as [e|q0] eqn:Hw.
  - intros [= ->]. destruct (IH Hdd eq_refl) as (c' & Hin & Hl).
    exists c'. split; [right; exact Hin|exact Hl].
  - destruct (fs !! q0) as [[d st|st]|]; try discriminate.
    destruct (name_too_long c) eqn:Hl; [|discriminate].
    intros _. exists c. split; [left|exact Hl].
Qed.

Lemma walk_rev_dirs fs rp :
  dotdot ∉ rp -> Forall (fun c => name_too_long c = false) rp ->
  (forall q, q `suffix_of` rp -> q <> rp -> is_dir_at fs q = true) ->
  walk fs [] (rev rp) = inr rp.
Proof.
  induction rp as [|c rp IH]; intros Hdd Hfit Hdirs; [reflexivity|].
  apply not_elem_of_cons in Hdd as [Hc Hdd]. simpl rev.
  apply Forall_cons in Hfit as [Hl Hfit].
  rewrite walk_snoc by (intros E; apply Hc; symmetry; exact E).
  rewrite IH; [|exact Hdd|exact Hfit|].
  - assert (Hd : is_dir_at fs rp = true).
    { apply Hdirs; [apply suffix_cons_r; reflexivity|apply cons_neq]. }
    apply is_dir_at_true in Hd as [st ->]. rewrite Hl. reflexivity.
  - intros q Hq Hne. apply Hdirs; [apply suffix_cons_r; exact Hq|].
    intros ->. exact (suffix_cons_not _ _ Hq).
Qed.

(** Making [c] inside an existing chain of directories: either the
    directory is made, or it was there already. *)
Lemma mkdir_exist_ok_child w c rp :
  c <> dotdot -> dotdot ∉ rp ->
  path_error (rev (c :: rp)) = None ->
  Forall (fun c => name_too_long c = false) (c :: rp) ->
  (forall q, q `suffix_of` rp -> is_dir_at (files w) q = true) ->
  (forall d st, files w !! (c :: rp) <> Some (File d st)) ->
  exists w',
    mkdir_exist_ok (rev (c :: rp)) w = (Return tt, w')
    /\ mkdir_parents_rev (c :: rp) w = (Return tt, w')
    /\ is_dir_at (files w') (c :: rp) = true
    /\ (forall q n, files w !! q = Some n -> files w' !! q = Some n)
    /\ (forall q, q <> c :: rp -> files w' !! q = files w !! q).
Proof.
  intros Hc Hdd Hpe Hfit Hdirs Hfree.
  assert (Hr : resolve w (rev (c :: rp)) = inr (c :: rp)).
  { apply resolve_inr. split; [exact Hpe|]. apply walk_rev_dirs.
    - apply not_elem_of_cons. split; [intros E; apply Hc; symmetry; exact E|exact Hdd].
    - exact Hfit.
    - intros q Hq Hne. apply suffix_cons_cases in Hq as [->|Hq]; [contradiction|auto]. }
  rewrite mkdir_parents_rev_unfold. unfold mkdir_exist_ok, try_except, os_mkdir.
  rewrite Hr. destruct (files w !! (c :: rp)) as [[d st|st]|] eqn:Hl.
  - exfalso. exact (Hfree d st eq_refl).
  - rewrite accept_existing_dir_spec, (stat_error_of_resolve _ _ _ Hr).
    unfold entry. rewrite Hr, Hl.
    exists w. repeat split; auto. unfold is_dir_at. rewrite Hl. reflexivity.
  - assert (Hcc : can_create (files w) (c :: rp) = true)
      by (simpl; apply Hdirs; reflexivity).
    rewrite Hcc. eexists. split; [reflexivity|]. split; [reflexivity|]. simpl.
    split; [|split].
    + unfold is_dir_at. rewrite lookup_insert_eq. reflexivity.
    + intros q n Hq. rewrite lookup_insert_ne; [exact Hq|]. congruence.
    + intros q Hne. apply lookup_insert_ne. congruence.
Qed.

(** [mkdir(parents=True, exist_ok=True)] on an unobstructed path without
    [..] that the file system accepts makes every missing directory on the
    way and returns; what exists stays as it is. *)
Lemma mkdir_parents_rev_creates rp : forall w,
  dotdot ∉ rp -> unobstructed (files w) rp ->
  path_error (rev rp) = None -> Forall (fun c => name_too_long c = false) rp ->
  exists w',
    mkdir_parents_rev rp w = (Return tt, w')
    /\ (forall q, q `suffix_of` rp -> is_dir_at (files w') q = true)
    /\ (forall q n, files w !! q = Some n -> files w' !! q = Some n)
    /\ (forall q, ~ q `suffix_of` rp -> files w' !! q = files w !! q).
Proof.
  induction rp as [|c rp IH]; intros w Hdd [Hroot Hfree] Hpe Hfit.
  - exists w. pose proof Hroot as Hroot'. apply is_dir_at_true in Hroot' as [st Hst].
    split; [|split; [|auto]].
    + apply (mkdir_parents_rev_existing [] w st). unfold entry.
      replace (resolve w (rev [])) with (@inr exn (list string) [])
        by (symmetry; apply resolve_inr; split; [exact Hpe|reflexivity]).
      exact Hst.
    + intros q Hq. apply suffix_nil_inv in Hq as ->. exact Hroot.
  - apply not_elem_of_cons in Hdd as [Hc Hdd].
    assert (Hc' : c <> dotdot) by (intros E; apply Hc; symmetry; exact E).
    assert (Hfree' : forall d st, files w !! (c :: rp) <> Some (File d st))
      by (apply Hfree; reflexivity).
    assert (Hunob : unobstructed (files w) rp).
    { split; [exact Hroot|]. intros q Hq. apply Hfree, suffix_cons_r, Hq. }
    assert (Hnsuf : ~ (c :: rp) `suffix_of` rp) by apply suffix_cons_not.
    pose proof Hpe as Hpe'. simpl rev in Hpe'. apply path_error_prefix in Hpe'.
    pose proof Hfit as Hfit0. apply Forall_cons in Hfit0 as [Hl Hfit'].
    assert (Hdone : forall w1,
      (forall q, q `suffix_of` rp -> is_dir_at (files w1) q = true) ->
      (forall q n, files w !! q = Some n -> files w1 !! q = Some n) ->
      (forall q, ~ q `suffix_of` rp -> files w1 !! q = files w !! q) ->
      exists w',
        mkdir_exist_ok (rev (c :: rp)) w1 = (Return tt, w')
        /\ mkdir_parents_rev (c :: rp) w1 = (Return tt, w')
        /\ (forall q, q `suffix_of` c :: rp -> is_dir_at (files w') q = true)
        /\ (forall q n, files w !! q = Some n -> files w' !! q = Some n)
        /\ (forall q, ~ q `suffix_of` c :: rp -> files w' !! q = files w !! q)).
    { intros w1 Hd1 Hk1 Hf1.
      destruct (mkdir_exist_ok_child w1 c rp Hc' Hdd Hpe Hfit Hd1)
        as (w' & H1 & H2 & Hd & Hk & Hf).
      { intros d st. rewrite (Hf1 _ Hnsuf). apply Hfree'. }
      exists w'. split; [exact H1|]. split; [exact H2|]. split; [|split].
      - intros q Hq. apply suffix_cons_cases in Hq as [->|Hq]; [exact Hd|].
        pose proof (Hd1 q Hq) as Hdq. apply is_dir_at_true in Hdq as [st Hst].
        apply is_dir_at_true. exists st. apply Hk. exact Hst.
      - intros q n Hq. apply Hk, Hk1, Hq.
      - intros q Hq. rewrite Hf.
        + apply Hf1. intros Hs. apply Hq, suffix_cons_r, Hs.
        + intros ->. apply Hq. reflexivity. }
    assert (Hrec : exists w',
      (mkdir_parents_rev rp >> mkdir_exist_ok (rev (c :: rp))) w = (Return tt, w')
      /\ (forall q, q `suffix_of` c :: rp -> is_dir_at (files w') q = true)
      /\ (forall q n, files w !! q = Some n -> files w' !! q = Some n)
      /\ (forall q, ~ q `suffix_of` c :: rp -> files w' !! q = files w !! q)).
    { destruct (IH w Hdd Hunob Hpe' Hfit') as (w1 & Hm1 & Hd1 & Hk1 & Hf1).
      destruct (Hdone w1 Hd1 Hk1 Hf1) as (w' & H1 & _ & Hposts).
      exists w'. split; [|exact Hposts].
      unfold bind. rewrite Hm1. exact H1. }
    destruct (walk (files w) [] (rev rp)) as [e|q0] eqn:Hw.
    + (* the parent cannot be reached *)
      destruct Hrec as (w' & Hrun & Hposts). exists w'. split; [|exact Hposts].
      rewrite mkdir_parents_rev_unfold. unfold try_except, os_mkdir, resolve.
      rewrite Hpe. simpl rev. rewrite (walk_snoc _ _ _ _ Hc'), Hw.
      destruct (walk_errors _ _ _ _ Hw) as [->|[->| ->]]; [exact Hrun| |].
      * exfalso. destruct (walk_rev_ENOTDIR _ _ Hdd Hw) as (q & d & st & Hq & Hf).
        exact (proj2 Hunob q Hq d st Hf).
      * exfalso. destruct (walk_rev_ENAMETOOLONG _ _ Hdd Hw) as (c' & Hin & Hl').
        rewrite Forall_forall in Hfit'. rewrite (Hfit' _ Hin) in Hl'. discriminate.
    + destruct (walk_rev_inr _ _ _ Hdd Hw) as [-> Hdirs].
      destruct (files w !! rp) as [[d st|st]|] eqn:Hrp.
      * exfalso. exact (proj2 Hunob rp ltac:(reflexivity) d st Hrp).
      * (* the parent is there *)
        destruct (Hdone w) as (w' & _ & H2 & Hposts); auto.
        -- intros q Hq. destruct (decide (q = rp)) as [->|Hne]; [|auto].
           unfold is_dir_at. rewrite Hrp. reflexivity.
        -- exists w'. split; [exact H2|exact Hposts].
      * (* the parent is missing *)
        destruct Hrec as (w' & Hrun & Hposts). exists w'. split; [|exact Hposts].
        rewrite mkdir_parents_rev_unfold. unfold try_except, os_mkdir, resolve.
        rewrite Hpe. simpl rev. rewrite (walk_snoc _ _ _ _ Hc'), Hw, Hrp. exact Hrun.
Qed.

Lemma timestamps_past_Cache_init app obs base w :
  timestamps_past w -> timestamps_past (snd (Cache_init app obs base w)).
Proof.
  intros Hw. unfold Cache_init. destruct (obs <? 0)%Z; [exact Hw|].
  unfold bind, create_app_dir, Path_mkdir_parents_exist_ok.
  destruct (mkdir_parents_rev _ w) as [o w'] eqn:Hm.
  assert (Hw' : timestamps_past w').
  { apply (mkdir_parents_rev_invariant timestamps_past _) in Hm; [exact Hm| |exact Hw].
    intros w0 q _ H0 r n. simpl. destruct (decide (q = r)) as [<-|Hne].
    - rewrite lookup_insert_eq. intros [= <-]. simpl. split; apply Qle_refl.
    - rewrite lookup_insert_ne by exact Hne. apply H0. }
  destruct o; exact Hw'.
Qed.

Lemma timestamps_past_bare_world : timestamps_past bare_world.
Proof.
  intros q n H. unfold bare_world in H. simpl in H.
  apply lookup_singleton_Some in H as [_ <-]. simpl. split; discriminate.
Qed.

Lemma timestamps_past_fresh_world : timestamps_past fresh_world.
Proof. apply timestamps_past_Cache_init, timestamps_past_bare_world. Qed.

(** C8, counterexample. [set("file.txt", "data")] returns; the system
    clock is then set back by 50 seconds; [how_old("file.txt")] of the
    existing entry returns -50000. *)
Lemma clock_set_back_negative_age :
  fst (Cache_set test_app "file.txt" "data" fresh_world) = Return tt
  /\ Cache_exists test_app "file.txt" clock_set_back_world
     = (Return true, clock_set_back_world)
  /\ Cache_how_old test_app "file.txt" clock_set_back_world
     = (Return (-50000)%Q, clock_set_back_world)
  /\ (-50000 < 0)%Q.
Proof.
  split; [vm_compute; reflexivity|].
  assert (He : entry clock_set_back_world (cache_dir test_app </> "file.txt")
               = Some (File "data" {| st_birthtime := 100; st_mtime := 100 |}))
    by (vm_compute; reflexivity).
  rewrite Cache_exists_spec, Cache_how_old_spec, (stat_error_of_entry _ _ _ He).
  unfold present. rewrite He.
  split; [reflexivity|]. split; [|reflexivity].
  assert (Hage : ((clock clock_set_back_world
                   - created_time_of clock_set_back_world
                       (File "data" {| st_birthtime := 100; st_mtime := 100 |})) * 1000
                  = -50000)%Q) by (vm_compute; reflexivity).
  rewrite Hage. reflexivity.
Qed.

Lemma how_old_is_age_in_ms_witness :
  let w1 := snd (Cache_set test_app "file.txt" "data" fresh_world) in
  let w2 := with_clock (clock w1 + 5)%Q w1 in
  timestamps_past fresh_world
  /\ fst (Cache_set test_app "file.txt" "data" fresh_world) = Return tt
  /\ fst (Cache_how_old test_app "file.txt" w2) = Return 5000%Q
  /\ exists age, Cache_how_old test_app "file.txt" w2 = (Return age, w2) /\ (0 <= age)%Q.
Proof.
  cbv zeta.
  assert (Hset : fst (Cache_set test_app "file.txt" "data" fresh_world) = Return tt)
    by (vm_compute; reflexivity).
  split; [exact timestamps_past_fresh_world|]. split; [exact Hset|].
  split; [vm_compute; reflexivity|].
  apply (proj2 (proj2 (how_old_is_age_in_ms test_app "file.txt" fresh_world)
                  timestamps_past_fresh_world) "data" _ 5%Q).
  - discriminate.
  - apply outcome_and_world. exact Hset.
Defined.

(** C7, as amended. Construction with a negative obsolescence raises
    [CacheError] ([InvalidConfiguration]) and touches nothing, whatever the
    application name and the base directory. With an obsolescence of 0 or
    more the object holds the application name, the obsolescence and
    [base_dir / app_name]; construction either returns it, and then the
    namespace directory exists, or raises the exception of [mkdir]: an
    [OSError], or the [ValueError] of a name with a NUL character, raised
    before anything is made. It returns without a change when the
    directory is already there, and on an unobstructed path that the file
    system accepts it returns after making the directory and every missing
    parent, keeping what exists. *)
Theorem Cache_init_checks_obsolescence app obs base w :
  let self := {| app_name := app; obsolescence := obs; cache_dir := base </> app |} in
  ((obs < 0)%Z ->
   Cache_init app obs base w
   = (Raise (CacheError ["La obsolescencia no puede ser negativa"]), w))
  /\ ((0 <= obs)%Z ->
      app_name self = app /\ obsolescence self = obs /\ cache_dir self = base </> app
      /\ (forall o w',
            Cache_init app obs base w = (o, w') ->
            (o = Return self /\ Path_is_dir (cache_dir self) w' = (Return true, w'))
            \/ (exists e, o = Raise (OSError e))
            \/ (o = Raise ValueError /\ w' = w
                /\ existsb has_NUL (base </> app) = true))
      /\ (forall st,
            entry w (base </> app) = Some (Dir st) ->
            Cache_init app obs base w = (Return self, w))
      /\ (dotdot ∉ base </> app ->
          unobstructed (files w) (rev (base </> app)) ->
          path_error (base </> app) = None ->
          Forall (fun c => name_too_long c = false) (base </> app) ->
          exists w',
            Cache_init app obs base w = (Return self, w')
            /\ (forall q, q `suffix_of` rev (base </> app) ->
                          is_dir_at (files w') q = true)
            /\ (forall q n, files w !! q = Some n -> files w' !! q = Some n))).
Proof.
  cbv zeta. unfold Cache_init. split.
  - intros H. apply Z.ltb_lt in H. rewrite H. reflexivity.
  - intros H. apply Z.ltb_ge in H. rewrite H.
    unfold bind, create_app_dir, Path_mkdir_parents_exist_ok. simpl cache_dir.
    split; [reflexivity|]. split; [reflexivity|]. split; [reflexivity|].
    split; [|split].
    + intros o w'. destruct (mkdir_parents_rev _ w) as [[[]|e] w1] eqn:Hm.
      * intros [= <- <-]. left. split; [reflexivity|].
        apply mkdir_parents_rev_result in Hm as [[_ [st Hst]]|[[e [=]]|([=] & _)]].
        rewrite rev_involutive in Hst.
        rewrite Path_is_dir_spec, (stat_error_of_entry _ _ _ Hst), Hst. reflexivity.
      * intros [= <- <-]. right.
        apply mkdir_parents_rev_result in Hm as [[[=] _]|[[en [= ->]]|([= ->] & -> & Hn)]];
          [eauto|].
        right. rewrite rev_involutive in Hn. auto.
    + intros st Hst. rewrite (mkdir_parents_rev_existing _ w st); [reflexivity|].
      rewrite rev_involutive. exact Hst.
    + intros Hdd Hun Hpe Hfit.
      destruct (mkdir_parents_rev_creates (rev (base </> app)) w) as (w' & Hm & Hd & Hk & _).
      * intros Hin. apply Hdd. apply list_elem_of_In, in_rev.
        apply list_elem_of_In. exact Hin.
      * exact Hun.
      * rewrite rev_involutive. exact Hpe.
      * apply Forall_forall. intros c Hc. rewrite Forall_forall in Hfit. apply Hfit.
        apply list_elem_of_In, in_rev, list_elem_of_In. exact Hc.
      * exists w'. rewrite Hm. auto.
Qed.

(** C7, counterexample. With a regular file at [/tmp],
    [Cache("test_app", 10, Path("/tmp/cache"))] has a valid obsolescence and
    raises [NotADirectoryError]. *)
Lemma init_blocked_by_file :
  (0 <= 10)%Z
  /\ files blocked_world !! ["tmp"] = Some (File "x" epoch)
  /\ fst (Cache_init "test_app" 10 ["tmp"; "cache"] blocked_world)
     = Raise (OSError ENOTDIR).
Proof.
  split; [discriminate|]. split; vm_compute; reflexivity.
Qed.

Lemma Cache_init_checks_obsolescence_witness :
  Cache_init "madrid_file" (-1) ["tmp"; "cache"] bare_world
  = (Raise (CacheError ["La obsolescencia no puede ser negativa"]), bare_world)
  /\ unobstructed (files bare_world) ["test_app"; "cache"; "tmp"]
  /\ exists w',
       Cache_init "test_app" 10 ["tmp"; "cache"] bare_world = (Return test_app, w')
       /\ (forall q, q `suffix_of` ["test_app"; "cache"; "tmp"] ->
                     is_dir_at (files w') q = true)
       /\ (forall q n, files bare_world !! q = Some n -> files w' !! q = Some n).
Proof.
  assert (Hun : unobstructed (files bare_world) ["test_app"; "cache"; "tmp"]).
  { split; [reflexivity|]. intros q _ d st H. unfold bare_world in H. simpl in H.
    apply lookup_singleton_Some in H as [_ H]. discriminate. }
  split; [|split; [exact Hun|]].
  - apply (proj1 (Cache_init_checks_obsolescence "madrid_file" (-1) ["tmp"; "cache"]
                    bare_world)). reflexivity.
  - apply (proj2 (Cache_init_checks_obsolescence "test_app" 10 ["tmp"; "cache"]
                    bare_world)).
    + discriminate.
    + intros H. repeat (apply elem_of_cons in H as [H|H]; [discriminate|]).
      inversion H.
    + exact Hun.
    + reflexivity.
    + repeat constructor.
Defined.

(** * Further properties of the cache *)

(** ** Text that is read back *)

Lemma universal_newlines_bounded n : forall s,
  String.length s <= n -> has_CR (universal_newlines s) = false.
Proof.
  induction n as [|n IH]; intros s Hlen.
  - destruct s; [reflexivity|simpl in Hlen; lia].
  - destruct s as [|a s']; [reflexivity|]. simpl in Hlen.
    cbn [universal_newlines]. destruct (Ascii.eqb a CR) eqn:Ha.
    + destruct s' as [|b s'']; [reflexivity|].
      destruct (Ascii.eqb b LF); cbn [has_CR]; rewrite IH; simpl in *; try lia;
        reflexivity.
    + cbn [has_CR]. rewrite Ha, IH by lia. reflexivity.
Qed.

(** What text-mode reading yields never holds a carriage return. *)
Lemma universal_newlines_has_no_CR s : has_CR (universal_newlines s) = false.
Proof. apply (universal_newlines_bounded (String.length s)). lia. Qed.

Lemma universal_newlines_fixed s : universal_newlines s = s <-> has_CR s = false.
Proof.
  split; [|apply universal_newlines_no_CR].
  intros H. rewrite <- H. apply universal_newlines_has_no_CR.
Qed.

(** ** Entries that an operation does not touch *)

Lemma entry_after_write_other w p q d st :
  is_dir_at (files w) q = false -> resolve w p <> inr q ->
  entry (with_files (<[q := File d st]> (files w)) w) p = entry w p.
Proof.
  intros Hq Hne. apply entry_same_dirs; simpl.
  - apply dirs_kept_insert. exact Hq.
  - apply dirs_kept_insert_file_back.
  - intros r Hr. apply lookup_insert_ne. congruence.
Qed.

Lemma entry_after_delete_other w p q :
  is_dir_at (files w) q = false -> resolve w p <> inr q ->
  entry (with_files (delete q (files w)) w) p = entry w p.
Proof.
  intros Hq Hne. apply entry_same_dirs; simpl.
  - apply dirs_kept_delete. exact Hq.
  - apply dirs_kept_delete_back.
  - intros r Hr. apply lookup_delete_ne. congruence.
Qed.

Lemma entry_after_delete w p q :
  is_dir_at (files w) q = false -> resolve w p = inr q ->
  entry (with_files (delete q (files w)) w) p = None.
Proof.
  intros Hq Hr. unfold entry.
  rewrite (resolve_dirs_kept _ _ _ _ (dirs_kept_delete _ _ Hq) Hr).
  apply lookup_delete_eq.
Qed.

(** A regular file that comes or goes changes no look-up error. *)
Lemma stat_error_after_write w p q d st :
  is_dir_at (files w) q = false ->
  stat_error (with_files (<[q := File d st]> (files w)) w) p = stat_error w p.
Proof.
  intros Hq. destruct (dirs_same_insert_file w q d st Hq) as [H1 H2].
  apply stat_error_same_dirs; assumption.
Qed.

Lemma stat_error_after_delete w p q :
  is_dir_at (files w) q = false ->
  stat_error (with_files (delete q (files w)) w) p = stat_error w p.
Proof.
  intros Hq. destruct (dirs_same_delete_file w q Hq) as [H1 H2].
  apply stat_error_same_dirs; assumption.
Qed.

(** Two different plain keys never lead to the same location. *)
Lemma plain_keys_apart self w k k' q :
  is_plain_name k = true -> is_plain_name k' = true -> k <> k' ->
  resolve w (cache_dir self </> k) = inr q ->
  resolve w (cache_dir self </> k') <> inr q.
Proof.
  intros Hk Hk' Hne Hr Hr'.
  rewrite (joinpath_plain _ _ Hk) in Hr. rewrite (joinpath_plain _ _ Hk') in Hr'.
  destruct (plain_name_parts _ Hk) as (_ & _ & Hd).
  destruct (plain_name_parts _ Hk') as (_ & _ & Hd').
  exact (Hne (resolve_plain_inj _ _ _ _ _ Hd Hd' Hr Hr')).
Qed.

(** The outcome of the three queries is a function of what the key names,
    the clock and the platform. *)
Lemma queries_same_entry self k w w' :
  stat_error w' (cache_dir self </> k) = stat_error w (cache_dir self </> k) ->
  entry w' (cache_dir self </> k) = entry w (cache_dir self </> k) ->
  clock w' = clock w -> has_birthtime w' = has_birthtime w ->
  fst (Cache_exists self k w') = fst (Cache_exists self k w)
  /\ fst (Cache_load self k w') = fst (Cache_load self k w)
  /\ fst (Cache_how_old self k w') = fst (Cache_how_old self k w).
Proof.
  intros Hs He Hc Hb.
  rewrite !Cache_exists_spec, !Cache_load_spec, !Cache_how_old_spec.
  unfold present, created_time_of. rewrite Hs, He, Hc, Hb. repeat split.
Qed.

(** ** [set], [load] and [delete] together *)

(** X1. After a [set(k, d)] that returned, [load(k)] returns [d] with every
    [\r\n] and every other [\r] replaced by [\n]; that is [d] itself exactly
    when [d] holds no carriage return. *)
Theorem load_after_set self k d w w' :
  Cache_set self k d w = (Return tt, w') ->
  Cache_load self k w' = (Return (universal_newlines d), w')
  /\ (universal_newlines d = d <-> has_CR d = false).
Proof.
  intros H. split; [exact (proj2 (set_then_load _ _ _ _ _ H))|].
  apply universal_newlines_fixed.
Qed.

Lemma load_after_set_witness :
  let r := Cache_set test_app "file.txt" "hello" fresh_world in
  fst r = Return tt
  /\ Cache_load test_app "file.txt" (snd r) = (Return "hello", snd r).
Proof.
  cbv zeta.
  assert (H : fst (Cache_set test_app "file.txt" "hello" fresh_world) = Return tt)
    by (vm_compute; reflexivity).
  split; [exact H|].
  exact (proj1 (load_after_set test_app "file.txt" "hello" fresh_world _
                  (outcome_and_world _ _ H))).
Defined.

(** X2. Whatever [load] returns holds no carriage return, so storing it
    again, under any key, and loading it gives exactly the same text. *)
Theorem loaded_text_round_trips self k w s :
  fst (Cache_load self k w) = Return s ->
  has_CR s = false
  /\ forall k' w0 w1,
       Cache_set self k' s w0 = (Return tt, w1) ->
       Cache_load self k' w1 = (Return s, w1).
Proof.
  rewrite Cache_load_spec. simpl.
  destruct (stat_error w (cache_dir self </> k)); [discriminate|].
  destruct (entry w (cache_dir self </> k)) as [[d st|st]|]; try discriminate.
  intros [= <-]. split; [apply universal_newlines_has_no_CR|].
  intros k' w0 w1 Hset. destruct (set_then_load _ _ _ _ _ Hset) as [_ Hload].
  rewrite Hload. f_equal. f_equal.
  apply universal_newlines_no_CR, universal_newlines_has_no_CR.
Qed.

Lemma loaded_text_round_trips_witness :
  let w := snd (Cache_set test_app "file.txt" cr_payload fresh_world) in
  fst (Cache_load test_app "file.txt" w) = Return cr_payload_read
  /\ has_CR cr_payload_read = false
  /\ forall k' w0 w1,
       Cache_set test_app k' cr_payload_read w0 = (Return tt, w1) ->
       Cache_load test_app k' w1 = (Return cr_payload_read, w1).
Proof.
  cbv zeta.
  assert (H : fst (Cache_load test_app "file.txt"
                     (snd (Cache_set test_app "file.txt" cr_payload fresh_world)))
              = Return cr_payload_read) by (vm_compute; reflexivity).
  split; [exact H|].
  exact (loaded_text_round_trips test_app "file.txt" _ cr_payload_read H).
Defined.

(** X3. Last write wins, without a trace of the first: a [set] on a key
    that a [set] has just written always returns, and leaves exactly the
    world that the second [set] alone would have left. *)
Theorem set_after_set self k d1 d2 w w1 :
  Cache_set self k d1 w = (Return tt, w1) ->
  fst (Cache_set self k d2 w1) = Return tt
  /\ Cache_set self k d2 w1 = Cache_set self k d2 w.
Proof.
  unfold Cache_set. rewrite !write_text_spec.
  destruct (resolve w (cache_dir self </> k)) as [e|q] eqn:Hr; [discriminate|].
  assert (Hr1 : forall d st, is_dir_at (files w) q = false ->
            resolve (with_files (<[q := File d st]> (files w)) w) (cache_dir self </> k)
            = inr q).
  { intros d st Hq. apply resolve_dirs_kept; [apply dirs_kept_insert; exact Hq|exact Hr]. }
  destruct (files w !! q) as [[d0 st0|st0]|] eqn:Hq; [|discriminate|].
  - intros [= <-]. rewrite Hr1 by (unfold is_dir_at; rewrite Hq; reflexivity).
    simpl. rewrite lookup_insert_eq, insert_insert_eq. split; reflexivity.
  - destruct (can_create (files w) q) eqn:Hc; [|discriminate].
    intros [= <-]. rewrite Hr1 by (unfold is_dir_at; rewrite Hq; reflexivity).
    simpl. rewrite lookup_insert_eq, insert_insert_eq. split; reflexivity.
Qed.

Lemma set_after_set_witness :
  let r := Cache_set test_app "file.txt" "one" fresh_world in
  fst r = Return tt
  /\ fst (Cache_set test_app "file.txt" "two" (snd r)) = Return tt
  /\ Cache_set test_app "file.txt" "two" (snd r)
     = Cache_set test_app "file.txt" "two" fresh_world.
Proof.
  cbv zeta.
  assert (H : fst (Cache_set test_app "file.txt" "one" fresh_world) = Return tt)
    by (vm_compute; reflexivity).
  split; [exact H|].
  exact (set_after_set test_app "file.txt" "one" "two" fresh_world _
           (outcome_and_world _ _ H)).
Defined.

(** X4. [delete(k)] returns exactly when [k] names a regular file. After it
    returned the key is gone: [exists(k)] is false, and [load(k)] and a
    second [delete(k)] raise [CacheError]. *)
Theorem delete_removes_entry self k w o w' :
  Cache_delete self k w = (o, w') ->
  (o = Return tt <-> exists d st, entry w (cache_dir self </> k) = Some (File d st))
  /\ (o = Return tt ->
      Cache_exists self k w' = (Return false, w')
      /\ Cache_load self k w' = (Raise (not_in_cache k), w')
      /\ Cache_delete self k w' = (Raise (CacheError []), w')).
Proof.
  rewrite Cache_delete_spec. unfold entry.
  destruct (stat_error w (cache_dir self </> k)) as [e|] eqn:Hs.
  { apply stat_error_Some in Hs as [_ Hs]. rewrite Hs. intros [= <- <-].
    split; [split; [discriminate|intros (d & st & [=])]|discriminate]. }
  destruct (resolve w (cache_dir self </> k)) as [e|q] eqn:Hr.
  { intros [= <- <-]. split; [split; [discriminate|intros (d & st & [=])]|discriminate]. }
  destruct (files w !! q) as [[d st|st]|] eqn:Hq; intros [= <- <-].
  - split; [split; eauto|]. intros _.
    assert (Hd : is_dir_at (files w) q = false)
      by (unfold is_dir_at; rewrite Hq; reflexivity).
    assert (He : Cache_exists self k (with_files (delete q (files w)) w)
                 = (Return false, with_files (delete q (files w)) w)).
    { apply exists_false. split.
      - rewrite stat_error_after_delete by exact Hd. exact Hs.
      - apply entry_after_delete; assumption. }
    destruct (not_found _ _ _ He) as (H2 & _ & H4). auto.
  - split; [split; [discriminate|intros (d & st' & [=])]|discriminate].
  - split; [split; [discriminate|intros (d & st' & [=])]|discriminate].
Qed.

Lemma delete_removes_entry_witness :
  let w := snd (Cache_set test_app "a.txt" "1" fresh_world) in
  let r := Cache_delete test_app "a.txt" w in
  fst r = Return tt
  /\ Cache_exists test_app "a.txt" (snd r) = (Return false, snd r)
  /\ Cache_load test_app "a.txt" (snd r) = (Raise (not_in_cache "a.txt"), snd r)
  /\ Cache_delete test_app "a.txt" (snd r) = (Raise (CacheError []), snd r).
Proof.
  cbv zeta.
  assert (H : fst (Cache_delete test_app "a.txt"
                     (snd (Cache_set test_app "a.txt" "1" fresh_world))) = Return tt)
    by (vm_compute; reflexivity).
  split; [exact H|].
  exact (proj2 (delete_removes_entry test_app "a.txt" _ _ _ (outcome_and_world _ _ H))
           eq_refl).
Defined.

(** X5. [set] and [delete] on one plain key leave every other plain key as
    it was: [exists], [load] and [how_old] of the other key give the same
    outcome after the call as before it. *)
Theorem other_keys_untouched self k k' c w :
  is_plain_name k = true -> is_plain_name k' = true -> k <> k' ->
  (c = call_delete k \/ exists d, c = call_set k d) ->
  let w' := after_call self c w in
  fst (Cache_exists self k' w') = fst (Cache_exists self k' w)
  /\ fst (Cache_load self k' w') = fst (Cache_load self k' w)
  /\ fst (Cache_how_old self k' w') = fst (Cache_how_old self k' w).
Proof.
  intros Hk Hk' Hne Hc w'.
  assert (He : stat_error w' (cache_dir self </> k') = stat_error w (cache_dir self </> k')
               /\ entry w' (cache_dir self </> k') = entry w (cache_dir self </> k')
               /\ clock w' = clock w /\ has_birthtime w' = has_birthtime w).
  { unfold w'. destruct Hc as [->|[d ->]]; simpl.
    - rewrite Cache_delete_spec.
      destruct (stat_error w (cache_dir self </> k)); [auto|].
      destruct (resolve w (cache_dir self </> k)) as [e|q] eqn:Hr; [auto|].
      destruct (files w !! q) as [[d st|st]|] eqn:Hq; auto.
      assert (Hd : is_dir_at (files w) q = false)
        by (unfold is_dir_at; rewrite Hq; reflexivity).
      simpl. split; [apply stat_error_after_delete; exact Hd|]. split; [|auto].
      apply entry_after_delete_other; [exact Hd|].
      exact (plain_keys_apart _ _ _ _ _ Hk Hk' Hne Hr).
    - unfold Cache_set.
      destruct (write_text (cache_dir self </> k) d w) as [[[]|e] w1] eqn:Hw.
      + apply write_text_Return in Hw as (q & st & Hr & Hq & -> & _).
        simpl. split; [apply stat_error_after_write; exact Hq|]. split; [|auto].
        apply entry_after_write_other; [exact Hq|].
        exact (plain_keys_apart _ _ _ _ _ Hk Hk' Hne Hr).
      + apply write_text_Raise in Hw as [-> _]. auto. }
  destruct He as (Hs & He & Hc' & Hb). apply queries_same_entry; assumption.
Qed.

Lemma other_keys_untouched_witness :
  let w := snd (Cache_set test_app "a.txt" "1" fresh_world) in
  let w' := after_call test_app (call_set "b.txt" "2") w in
  fst (Cache_load test_app "a.txt" w) = Return "1"
  /\ fst (Cache_exists test_app "a.txt" w') = fst (Cache_exists test_app "a.txt" w)
  /\ fst (Cache_load test_app "a.txt" w') = fst (Cache_load test_app "a.txt" w)
  /\ fst (Cache_how_old test_app "a.txt" w') = fst (Cache_how_old test_app "a.txt" w).
Proof.
  cbv zeta. split; [vm_compute; reflexivity|].
  apply (other_keys_untouched test_app "b.txt" "a.txt" (call_set "b.txt" "2")).
  - reflexivity.
  - reflexivity.
  - discriminate.
  - right. eexists. reflexivity.
Defined.

(** ** Ages across an overwrite *)

(** X6. A [set] on an existing key keeps its creation time and renews its
    modification time. So [dt] seconds after the overwrite [how_old]
    returns [dt * 1000] where [st_birthtime] is missing (the age starts
    again), and the time since the original creation where it is available
    (the age is not reset). For a key that did not exist, it returns
    [dt * 1000] on both. *)
Theorem age_after_set self k d w w1 dt :
  Cache_set self k d w = (Return tt, w1) ->
  let w2 := with_clock (clock w1 + dt)%Q w1 in
  exists age,
    Cache_how_old self k w2 = (Return age, w2)
    /\ (has_birthtime w = false -> (age == dt * 1000)%Q)
    /\ (entry w (cache_dir self </> k) = None -> (age == dt * 1000)%Q)
    /\ (forall n, has_birthtime w = true ->
                  entry w (cache_dir self </> k) = Some n ->
                  (age == (clock w + dt - st_birthtime (node_stat n)) * 1000)%Q).
Proof.
  intros Hset w2. unfold Cache_set in Hset.
  apply write_text_Return in Hset as (q & st & Hr & Hq & Hw1 & Hm & Hb).
  assert (He : entry w2 (cache_dir self </> k) = Some (File d st)).
  { unfold w2. rewrite entry_with_clock, Hw1. apply entry_after_write; assumption. }
  rewrite (Cache_how_old_entry _ _ _ _ He). eexists. split; [reflexivity|].
  assert (Hc : clock w2 = (clock w + dt)%Q) by (unfold w2; rewrite Hw1; reflexivity).
  assert (Hbt : has_birthtime w2 = has_birthtime w) by (unfold w2; rewrite Hw1; reflexivity).
  unfold created_time_of. rewrite Hc, Hbt. simpl node_stat.
  split; [|split].
  - intros ->. rewrite Hm. ring.
  - intros Habs. unfold entry in Habs. rewrite Hr in Habs.
    destruct Hb as [[_ Hb]|(d0 & st0 & Hf & _)]; [|congruence].
    destruct (has_birthtime w); rewrite ?Hb, ?Hm; ring.
  - intros n -> Hn. unfold entry in Hn. rewrite Hr in Hn.
    destruct Hb as [[Hf _]|(d0 & st0 & Hf & Hb)]; [congruence|].
    rewrite Hf in Hn. injection Hn as <-. simpl. rewrite Hb. reflexivity.
Qed.

Lemma age_after_set_witness :
  let w := with_clock 130 (snd (Cache_set test_app "file.txt" "one" fresh_world)) in
  let r := Cache_set test_app "file.txt" "two" w in
  let w2 := with_clock (clock (snd r) + 7)%Q (snd r) in
  fst r = Return tt
  /\ exists age,
       Cache_how_old test_app "file.txt" w2 = (Return age, w2)
       /\ (age == 7 * 1000)%Q.
Proof.
  cbv zeta.
  assert (H : fst (Cache_set test_app "file.txt" "two"
                     (with_clock 130 (snd (Cache_set test_app "file.txt" "one" fresh_world))))
              = Return tt) by (vm_compute; reflexivity).
  split; [exact H|].
  destruct (age_after_set test_app "file.txt" "two" _ _ 7%Q (outcome_and_world _ _ H))
    as (age & Hage & Hno_birth & _).
  exists age. split; [exact Hage|]. apply Hno_birth. reflexivity.
Defined.

(** ** What the operations leave alone *)

(** X7. [clear()], whether it returns or raises, removes nothing but
    regular files that are direct entries of the namespace directory: every
    other location (directories, the files inside them, files elsewhere)
    holds what it held, nothing is created or rewritten, and the clock and
    the log of requests are unchanged. *)
Theorem clear_removes_only_own_files self w o w' :
  Cache_clear self w = (o, w') ->
  w' = with_files (files w') w
  /\ forall r,
       files w' !! r = files w !! r
       \/ (files w' !! r = None
           /\ exists q name d st,
                resolve w (cache_dir self) = inr q /\ r = name :: q
                /\ files w !! r = Some (File d st)).
Proof.
  rewrite Cache_clear_spec.
  destruct (resolve w (cache_dir self)) as [e|q] eqn:Hr.
  { intros [= _ <-]. rewrite with_files_same. auto. }
  destruct (files w !! q) as [[d st|st]|] eqn:Hq;
    try (intros [= _ <-]; rewrite with_files_same; auto).
  intros H.
  apply (unlink_children_frame _ q) in H as (Hw & Hframe);
    [|exact Hr|apply is_dir_at_true; eauto|apply children_not_dotdot].
  split; [exact Hw|]. intros r.
  destruct (Hframe r) as [H0|[H0 (name & d' & st' & Hname & Hf)]]; [auto|].
  right. split; [exact H0|]. exists q, name, d', st'. auto.
Qed.

Lemma clear_removes_only_own_files_witness :
  let r := Cache_clear test_app subdir_world in
  snd r = with_files (files (snd r)) subdir_world
  /\ files (snd r) !! ["sub"; "test_app"; "cache"; "tmp"]
     = files subdir_world !! ["sub"; "test_app"; "cache"; "tmp"].
Proof.
  cbv zeta.
  destruct (clear_removes_only_own_files test_app subdir_world _ _
              (surjective_pairing _)) as (Hw & Hframe).
  split; [exact Hw|].
  destruct (Hframe ["sub"; "test_app"; "cache"; "tmp"])
    as [H0|[_ (q & name & d & st & _ & _ & Hf)]]; [exact H0|].
  exfalso. revert Hf. vm_compute. discriminate.
Defined.

(** X8. [exists], [load] and [how_old] change nothing, for every key and
    in every world, whether they return or raise; [delete] changes nothing
    when it raises. *)
Theorem queries_change_nothing self k w :
  snd (Cache_exists self k w) = w
  /\ snd (Cache_load self k w) = w
  /\ snd (Cache_how_old self k w) = w
  /\ (forall e w', Cache_delete self k w = (Raise e, w') -> w' = w).
Proof.
  rewrite Cache_exists_spec, Cache_load_spec, Cache_how_old_spec.
  split; [reflexivity|]. split; [reflexivity|]. split; [reflexivity|].
  intros e w'. rewrite Cache_delete_spec.
  destruct (stat_error w (cache_dir self </> k)); [intros [= _ <-]; reflexivity|].
  destruct (resolve w (cache_dir self </> k)) as [en|q]; [intros [= _ <-]; reflexivity|].
  destruct (files w !! q) as [[d0 st|st]|]; intros [= _ <-] || discriminate; reflexivity.
Qed.


(** * Further properties of the URL cache *)

(** Storing under a key that leads to a free place in a directory. *)
Lemma Cache_set_new self w q k data :
  resolve w (cache_dir self </> k) = inr (k :: q) ->
  is_dir_at (files w) q = true -> files w !! (k :: q) = None ->
  Cache_set self k data w
  = (Return tt, with_files (<[k :: q := File data (now_stamp w)]> (files w)) w).
Proof.
  intros Hr Hd Habs. unfold Cache_set. rewrite write_text_spec, Hr, Habs.
  unfold can_create. rewrite Hd. reflexivity.
Qed.

(** A URL that [exists] does not find, in a namespace directory that is
    there: the key leads to a free place in it. *)
Lemma miss_in_namespace self url w q :
  Cache_exists self (_hash url) w = (Return false, w) ->
  resolve w (cache_dir self) = inr q -> is_dir_at (files w) q = true ->
  resolve w (cache_dir self </> _hash url) = inr (_hash url :: q)
  /\ files w !! (_hash url :: q) = None.
Proof.
  intros Hex Hr Hd. apply exists_false in Hex as [Hs He].
  unfold stat_error, entry in *. rewrite (resolve_hash _ _ _ _ Hr Hd) in *.
  destruct (PATH_MAX <=? str_length (cache_dir self ++ [_hash url]))%Z;
    [discriminate|]. auto.
Qed.

(** Without a namespace directory no plain key can be resolved. *)
Lemma resolve_without_namespace self w k :
  is_plain_name k = true ->
  (forall st, entry w (cache_dir self) <> Some (Dir st)) ->
  exists e, resolve w (cache_dir self </> k) = inl e.
Proof.
  intros Hk Hno. destruct (plain_name_parts _ Hk) as (_ & _ & Hne).
  rewrite (joinpath_plain _ _ Hk), (resolve_snoc _ _ _ Hne).
  destruct (path_error (cache_dir self ++ [k])); [eauto|].
  unfold entry in Hno.
  destruct (resolve w (cache_dir self)) as [e|q]; [eauto|].
  destruct (files w !! q) as [[d st|st]|]; [eauto| |eauto].
  exfalso. exact (Hno st eq_refl).
Qed.

Lemma set_keeps_other_entry self k k' d w :
  is_plain_name k = true -> is_plain_name k' = true -> k <> k' ->
  stat_error (snd (Cache_set self k d w)) (cache_dir self </> k')
  = stat_error w (cache_dir self </> k')
  /\ entry (snd (Cache_set self k d w)) (cache_dir self </> k')
     = entry w (cache_dir self </> k').
Proof.
  intros Hk Hk' Hne. unfold Cache_set.
  destruct (write_text (cache_dir self </> k) d w) as [[[]|e] w1] eqn:Hw.
  - apply write_text_Return in Hw as (q & st & Hr & Hq & -> & _).
    simpl. split; [apply stat_error_after_write; exact Hq|].
    apply entry_after_write_other; [exact Hq|].
    exact (plain_keys_apart _ _ _ _ _ Hk Hk' Hne Hr).
  - apply write_text_Raise in Hw as [-> _]. auto.
Qed.

Lemma delete_keeps_other_entry self k k' w :
  is_plain_name k = true -> is_plain_name k' = true -> k <> k' ->
  stat_error (snd (Cache_delete self k w)) (cache_dir self </> k')
  = stat_error w (cache_dir self </> k')
  /\ entry (snd (Cache_delete self k w)) (cache_dir self </> k')
     = entry w (cache_dir self </> k').
Proof.
  intros Hk Hk' Hne. rewrite Cache_delete_spec.
  destruct (stat_error w (cache_dir self </> k)); [auto|].
  destruct (resolve w (cache_dir self </> k)) as [e|q] eqn:Hr; [auto|].
  destruct (files w !! q) as [[d st|st]|] eqn:Hq; auto.
  assert (Hd : is_dir_at (files w) q = false)
    by (unfold is_dir_at; rewrite Hq; reflexivity).
  simpl. split; [apply stat_error_after_delete; exact Hd|].
  apply entry_after_delete_other; [exact Hd|].
  exact (plain_keys_apart _ _ _ _ _ Hk Hk' Hne Hr).
Qed.

Lemma set_keeps_clock self k d w :
  clock (snd (Cache_set self k d w)) = clock w
  /\ has_birthtime (snd (Cache_set self k d w)) = has_birthtime w.
Proof.
  unfold Cache_set.
  destruct (write_text (cache_dir self </> k) d w) as [[[]|e] w1] eqn:Hw.
  - apply write_text_Return in Hw as (q & st & _ & _ & -> & _). auto.
  - apply write_text_Raise in Hw as [-> _]. auto.
Qed.

Lemma delete_keeps_clock self k w :
  clock (snd (Cache_delete self k w)) = clock w
  /\ has_birthtime (snd (Cache_delete self k w)) = has_birthtime w.
Proof.
  rewrite Cache_delete_spec.
  destruct (stat_error w (cache_dir self </> k)); [auto|].
  destruct (resolve w (cache_dir self </> k)) as [e|q]; [auto|].
  destruct (files w !! q) as [[d st|st]|]; auto.
Qed.

(** X10. A miss that is answered. When the URL is not cached, the response
    has no status from 400 to 599 and the namespace directory exists, [get]
    sends one request, returns the body, and stores it in a new file named
    by the MD5 key directly inside the namespace directory, stamped with
    the current time; afterwards [exists(url)] is true and [load(url)]
    returns the body as read back. *)
Theorem get_miss_stores_body net self url w r q :
  CacheUrl_exists self url w = (Return false, w) ->
  net url = Some r -> error_status r = false ->
  resolve w (cache_dir self) = inr q -> is_dir_at (files w) q = true ->
  let w' := with_files (<[_hash url :: q := File (text r) (now_stamp w)]> (files w))
              (with_sent (url :: sent w) w) in
  CacheUrl_get net self url w = (Return (text r), w')
  /\ CacheUrl_exists self url w' = (Return true, w')
  /\ CacheUrl_load self url w' = (Return (universal_newlines (text r)), w').
Proof.
  intros Hex Hnet Hok Hr Hd w'. unfold CacheUrl_exists in *.
  destruct (miss_in_namespace _ _ _ _ Hex Hr Hd) as [Hres Hfree].
  assert (Hset : Cache_set self (_hash url) (text r) (with_sent (url :: sent w) w)
                 = (Return tt, w')).
  { apply (Cache_set_new self (with_sent (url :: sent w) w) q); assumption. }
  split.
  - rewrite (get_miss _ _ _ _ Hex). cbv zeta. rewrite Hnet, Hok, Hset. reflexivity.
  - unfold CacheUrl_load. exact (set_then_load _ _ _ _ _ Hset).
Qed.

Lemma get_miss_stores_body_witness :
  let w' := with_files
              (<[_hash test_url :: ["test_app"; "cache"; "tmp"]
                 := File crlf_body (now_stamp fresh_world)]> (files fresh_world))
              (with_sent (test_url :: sent fresh_world) fresh_world) in
  CacheUrl_get net_crlf test_app test_url fresh_world = (Return crlf_body, w')
  /\ CacheUrl_exists test_app test_url w' = (Return true, w')
  /\ CacheUrl_load test_app test_url w' = (Return lf_body, w').
Proof.
  apply (get_miss_stores_body net_crlf test_app test_url fresh_world
           {| status_code := 200; text := crlf_body |} ["test_app"; "cache"; "tmp"]).
  - apply Cache_exists_fst. vm_compute. reflexivity.
  - reflexivity.
  - reflexivity.
  - vm_compute. reflexivity.
  - vm_compute. reflexivity.
Defined.

(** X11. A body that cannot be stored is lost. When the namespace
    directory is missing (removed behind the back of the cache) or is not a
    directory, [get] of a URL that answers without an error status never
    returns and stores nothing. If [exists] raises, as it does for a path
    that is too long, that exception leaves [get] and no request is sent.
    Otherwise [get] sends its request and then raises the exception of
    [open]: an [OSError], or [ValueError] for a path with a NUL
    character. *)
Theorem get_without_namespace_directory net self url w r :
  (forall st, entry w (cache_dir self) <> Some (Dir st)) ->
  net url = Some r -> error_status r = false ->
  match fst (CacheUrl_exists self url w) with
  | Raise e => CacheUrl_get net self url w = (Raise e, w)
  | Return _ =>
      exists e,
        CacheUrl_get net self url w = (Raise e, with_sent (url :: sent w) w)
        /\ (e = ValueError \/ exists en, e = OSError en)
  end.
Proof.
  intros Hno Hnet Hok. unfold CacheUrl_exists.
  destruct (resolve_without_namespace self w (_hash url) (hash_plain url) Hno) as [e He].
  destruct (exists_cases self (_hash url) w)
    as [(e' & Hs & ->)|[(n & Hn & _)|(_ & _ & Hex)]].
  - exact (get_stat_error _ _ _ _ _ Hs).
  - unfold entry in Hn. rewrite He in Hn. discriminate.
  - rewrite Hex. cbn [fst]. rewrite (get_miss _ _ _ _ Hex). cbv zeta.
    rewrite Hnet, Hok. unfold Cache_set. rewrite write_text_spec.
    assert (He' : resolve (with_sent (url :: sent w) w) (cache_dir self </> _hash url)
                  = inl e) by exact He.
    rewrite He'. exists e. split; [reflexivity|].
    destruct (resolve_errors _ _ _ He) as [->|[->|[->| ->]]]; eauto.
Qed.

Lemma get_without_namespace_directory_witness :
  exists e,
    CacheUrl_get net_crlf test_app test_url bare_world
    = (Raise e, with_sent (test_url :: sent bare_world) bare_world)
    /\ (e = ValueError \/ exists en, e = OSError en).
Proof.
  pose proof (get_without_namespace_directory net_crlf test_app test_url bare_world
                {| status_code := 200; text := crlf_body |}) as H.
  assert (Hex : fst (CacheUrl_exists test_app test_url bare_world) = Return false)
    by (vm_compute; reflexivity).
  rewrite Hex in H. apply H.
  - intros st E. revert E. vm_compute. discriminate.
  - reflexivity.
  - reflexivity.
Defined.

(** X12. After a [delete(url)] that returned, the URL is a miss again:
    [exists(url)] is false and the next [get(url)] sends a request. *)
Theorem get_after_delete_fetches net self url w w1 :
  CacheUrl_delete self url w = (Return tt, w1) ->
  CacheUrl_exists self url w1 = (Return false, w1)
  /\ sent (snd (CacheUrl_get net self url w1)) = url :: sent w1.
Proof.
  unfold CacheUrl_delete, CacheUrl_exists. rewrite Cache_delete_spec.
  destruct (stat_error w (cache_dir self </> _hash url)) eqn:Hs; [discriminate|].
  destruct (resolve w (cache_dir self </> _hash url)) as [e|q] eqn:Hr; [discriminate|].
  destruct (files w !! q) as [[d st|st]|] eqn:Hq; try discriminate.
  intros [= <-].
  assert (Hd : is_dir_at (files w) q = false)
    by (unfold is_dir_at; rewrite Hq; reflexivity).
  assert (Hmiss : Cache_exists self (_hash url) (with_files (delete q (files w)) w)
                  = (Return false, with_files (delete q (files w)) w)).
  { apply exists_false. split.
    - rewrite stat_error_after_delete by exact Hd. exact Hs.
    - apply entry_after_delete; assumption. }
  split; [exact Hmiss|].
  rewrite (get_miss _ _ _ _ Hmiss). cbv zeta.
  destruct (net url) as [r|]; [|reflexivity].
  destruct (error_status r); [reflexivity|].
  destruct (Cache_set self (_hash url) (text r) _) as [[[]|e] w2] eqn:Hset.
  - unfold Cache_set in Hset.
    apply write_text_Return in Hset as (q' & st' & _ & _ & -> & _). reflexivity.
  - unfold Cache_set in Hset. apply write_text_Raise in Hset as [-> _]. reflexivity.
Qed.

Lemma get_after_delete_fetches_witness :
  let w := snd (CacheUrl_get net_crlf test_app test_url fresh_world) in
  let r := CacheUrl_delete test_app test_url w in
  fst r = Return tt
  /\ CacheUrl_exists test_app test_url (snd r) = (Return false, snd r)
  /\ sent (snd (CacheUrl_get net_down test_app test_url (snd r)))
     = test_url :: sent (snd r).
Proof.
  cbv zeta.
  assert (H : fst (CacheUrl_delete test_app test_url
                     (snd (CacheUrl_get net_crlf test_app test_url fresh_world)))
              = Return tt) by (vm_compute; reflexivity).
  split; [exact H|].
  exact (get_after_delete_fetches net_down test_app test_url _ _
           (outcome_and_world _ _ H)).
Defined.

(** X13. URLs with different MD5 digests do not disturb each other:
    [get] and [delete] of one URL leave [exists], [load] and [how_old] of
    the other with the outcome they had. *)
Theorem other_urls_untouched net self url url' w :
  MD5.digest (MD5.bytes_of_string url) <> MD5.digest (MD5.bytes_of_string url') ->
  forall w',
    w' = snd (CacheUrl_get net self url w) \/ w' = snd (CacheUrl_delete self url w) ->
    fst (CacheUrl_exists self url' w') = fst (CacheUrl_exists self url' w)
    /\ fst (CacheUrl_load self url' w') = fst (CacheUrl_load self url' w)
    /\ fst (CacheUrl_how_old self url' w') = fst (CacheUrl_how_old self url' w).
Proof.
  intros Hdig w' Hw'.
  assert (Hne : _hash url <> _hash url').
  { unfold _hash, MD5.hexdigest. intros H. apply Hdig.
    exact (hex_inj _ _ (digest_bytes _) (digest_bytes _) H). }
  pose proof (hash_plain url) as Hk. pose proof (hash_plain url') as Hk'.
  unfold CacheUrl_exists, CacheUrl_load, CacheUrl_how_old.
  assert (He : (stat_error w' (cache_dir self </> _hash url')
                = stat_error w (cache_dir self </> _hash url')
                /\ entry w' (cache_dir self </> _hash url')
                   = entry w (cache_dir self </> _hash url'))
               /\ clock w' = clock w /\ has_birthtime w' = has_birthtime w).
  { destruct Hw' as [->| ->].
    - destruct (exists_cases self (_hash url) w)
        as [(e & Hs & _)|[(n & Hn & _)|(_ & _ & Hmiss)]].
      + rewrite (get_stat_error _ _ _ _ _ Hs). auto.
      + rewrite get_hit by (unfold present; rewrite Hn; reflexivity).
        rewrite Cache_load_spec. auto.
      + rewrite (get_miss _ _ _ _ Hmiss). cbv zeta.
        destruct (net url) as [r|]; [|auto].
        destruct (error_status r); [auto|].
        pose proof (set_keeps_other_entry self (_hash url) (_hash url') (text r)
                      (with_sent (url :: sent w) w) Hk Hk' Hne) as Hent.
        pose proof (set_keeps_clock self (_hash url) (text r)
                      (with_sent (url :: sent w) w)) as [Hc Hb].
        destruct (Cache_set self (_hash url) (text r) (with_sent (url :: sent w) w))
          as [[[]|e] w2]; simpl in *; auto.
    - unfold CacheUrl_delete.
      split; [apply delete_keeps_other_entry; assumption|apply delete_keeps_clock]. }
  destruct He as ((Hs & He) & Hc & Hb). apply queries_same_entry; assumption.
Qed.

Lemma other_urls_untouched_witness :
  let w := snd (CacheUrl_get net_crlf test_app test_url fresh_world) in
  let w' := snd (CacheUrl_get net_300 test_app "http://x/other.csv" w) in
  fst (CacheUrl_load test_app test_url w') = fst (CacheUrl_load test_app test_url w).
Proof.
  cbv zeta.
  refine (proj1 (proj2 (other_urls_untouched net_300 test_app "http://x/other.csv"
                          test_url _ _ _ (or_introl eq_refl)))).
  vm_compute. discriminate.
Defined.

(** X14. [CacheUrl] inherits [set] as it is, so an entry is seeded under
    the hashed key, as the doctests do: after [set(md5(url), d)] returned,
    [get(url)] is a hit that returns [d] as read back, without a request. *)
Theorem get_after_seeding net self url d w w' :
  Cache_set self (_hash url) d w = (Return tt, w') ->
  CacheUrl_get net self url w' = (Return (universal_newlines d), w').
Proof.
  intros Hset. destruct (set_then_load _ _ _ _ _ Hset) as [Hex Hload].
  apply Cache_exists_Return in Hex as (_ & Hp & _).
  rewrite (get_hit _ _ _ _ Hp). exact Hload.
Qed.

Lemma get_after_seeding_witness :
  let r := Cache_set test_app (_hash "http://example.com/data.csv") "test content"
             fresh_world in
  fst r = Return tt
  /\ CacheUrl_get net_down test_app "http://example.com/data.csv" (snd r)
     = (Return "test content", snd r).
Proof.
  cbv zeta.
  assert (H : fst (Cache_set test_app (_hash "http://example.com/data.csv")
                     "test content" fresh_world) = Return tt)
    by (vm_compute; reflexivity).
  split; [exact H|].
  exact (get_after_seeding net_down test_app "http://example.com/data.csv"
           "test content" fresh_world _ (outcome_and_world _ _ H)).
Defined.

(** X15. After a [get] that returned, whether it was a hit or a fetch,
    every further [get] of the URL is a hit: it sends no request, changes
    nothing, and returns the first result as text-mode reading renders it,
    which is the first result itself when that holds no carriage return. *)
Theorem get_again_is_a_hit net1 net2 self url w body w1 :
  CacheUrl_get net1 self url w = (Return body, w1) ->
  CacheUrl_get net2 self url w1 = (Return (universal_newlines body), w1)
  /\ (has_CR body = false -> CacheUrl_get net2 self url w1 = (Return body, w1)).
Proof.
  intros Hget.
  assert (H2 : CacheUrl_get net2 self url w1 = (Return (universal_newlines body), w1)).
  { destruct (exists_cases self (_hash url) w)
      as [(e & Hs & _)|[(n & He & _)|(_ & _ & Hmiss)]].
    - rewrite (get_stat_error _ _ _ _ _ Hs) in Hget. discriminate.
    - assert (Hp : present w (cache_dir self </> _hash url) = true)
        by (unfold present; rewrite He; reflexivity).
      rewrite (get_hit _ _ _ _ Hp), (Cache_load_entry _ _ _ _ He) in Hget.
      destruct n as [d st|st]; [|discriminate].
      injection Hget as <- <-. rewrite (get_hit _ _ _ _ Hp), (Cache_load_entry _ _ _ _ He).
      rewrite (universal_newlines_no_CR _ (universal_newlines_has_no_CR d)).
      reflexivity.
    - exact (get_after_fetch _ net2 _ _ _ _ _ Hmiss Hget). }
  split; [exact H2|]. intros Hcr. rewrite H2, (universal_newlines_no_CR _ Hcr).
  reflexivity.
Qed.

Lemma get_again_is_a_hit_witness :
  let r := CacheUrl_get net_300 test_app test_url fresh_world in
  fst r = Return "x"
  /\ CacheUrl_get net_down test_app test_url (snd r) = (Return "x", snd r).
Proof.
  cbv zeta.
  assert (H : fst (CacheUrl_get net_300 test_app test_url fresh_world) = Return "x")
    by (vm_compute; reflexivity).
  split; [exact H|].
  exact (proj1 (get_again_is_a_hit net_300 net_down test_app test_url fresh_world "x" _
                  (outcome_and_world _ _ H))).
Defined.

(** * Properties of [madridFines.py] *)

Local Open Scope Z_scope.

Lemma get_url_spec lib net year month w :
  get_url lib net year month w
  = if negb (valid_year year) then
      (Fail (MadridError (String.append "Año fuera de rango: " (str_int year))), w)
    else if negb (valid_month month) then
      (Fail (MadridError (String.append "Mes inválido: " (str_int month))), w)
    else
      let w1 := with_sent (index_url :: sent w) w in
      match net index_url with
      | None =>
          (Fail (MadridError (String.append "No se pudo obtener la página principal: "
                                (str_exception lib RequestException))), w1)
      | Some r =>
          if error_status r then
            (Fail (MadridError (String.append "No se pudo obtener la página principal: "
                                  (str_exception lib (HTTPError (status_code r))))), w1)
          else
            match scan_index lib (text r) year month with
            | CsvLink href => (Ok (String.append ROOT href), w1)
            | LinkWithoutHref => (Fail (FromLibrary "KeyError"), w1)
            | NoCsvLink =>
                (Fail (MadridError
                         (String.append "No se encontró CSV para "
                            (String.append (str_int year)
                               (String.append "-" (format_02d month))))), w1)
            end
      end.
Proof.
  unfold get_url. destruct (negb (valid_year year)); [reflexivity|].
  destruct (negb (valid_month month)); [reflexivity|].
  unfold bind, requests_get, raise_for_status, error_status.
  destruct (net index_url) as [r|]; [|reflexivity].
  destruct ((400 <=? status_code r)%Z && (status_code r <? 600)%Z); reflexivity.
Qed.

Lemma get_url_Ok lib net year month w url w' :
  get_url lib net year month w = (Ok url, w') ->
  valid_year year = true /\ valid_month month = true
  /\ w' = with_sent (index_url :: sent w) w
  /\ exists resp href, net index_url = Some resp /\ error_status resp = false
       /\ scan_index lib (text resp) year month = CsvLink href
       /\ url = String.append ROOT href.
Proof.
  rewrite get_url_spec.
  destruct (valid_year year); [|discriminate].
  destruct (valid_month month); [|discriminate]. cbn.
  destruct (net index_url) as [r|]; [|discriminate].
  destruct (error_status r) eqn:He; [discriminate|].
  destruct (scan_index lib (text r) year month) as [href| |] eqn:Hs; try discriminate.
  intros [= <- <-]. repeat split; eauto 10.
Qed.

(** X16. [get_url] checks the date before it touches the network: with a
    year outside 2017..2025 or a month outside 1..12 it raises [MadridError]
    and the world is the one it started in, so no request was sent. The year
    is checked first: when both are out of range the message is the one
    about the year. *)
Theorem get_url_rejects_date_without_request lib net year month w :
  valid_year year && valid_month month = false ->
  get_url lib net year month w
  = (Fail (MadridError
             (if valid_year year
              then String.append "Mes inválido: " (str_int month)
              else String.append "Año fuera de rango: " (str_int year))), w).
Proof.
  intros H. rewrite get_url_spec. destruct (valid_year year); [|reflexivity].
  simpl in H. rewrite H. reflexivity.
Qed.

Lemma get_url_rejects_date_without_request_witness :
  get_url sample_lib net_ok 2026 13 fresh_world
  = (Fail (MadridError "Año fuera de rango: 2026"), fresh_world)
  /\ get_url sample_lib net_ok 2025 0 fresh_world
     = (Fail (MadridError "Mes inválido: 0"), fresh_world).
Proof.
  split.
  - exact (get_url_rejects_date_without_request sample_lib net_ok 2026 13 fresh_world eq_refl).
  - exact (get_url_rejects_date_without_request sample_lib net_ok 2025 0 fresh_world eq_refl).
Defined.


Lemma get_url_no_index lib net year month w :
  valid_year year = true -> valid_month month = true ->
  (forall resp, net index_url = Some resp -> error_status resp = true) ->
  exists msg, get_url lib net year month w
              = (Fail (MadridError msg), with_sent (index_url :: sent w) w).
Proof.
  intros Hy Hm Hnet. rewrite get_url_spec, Hy, Hm. cbn.
  destruct (net index_url) as [r|]; [|eauto].
  rewrite (Hnet r eq_refl). eauto.
Qed.

(** X18. [MadridFines.load] asks for the index page on every call, before
    it looks into the cache: if that request fails or is answered with a
    status in 400..599, [load] raises [MadridError] whatever the cache
    holds, CSV of the month included. *)
Theorem load_needs_index_page lib net year month cache w :
  valid_year year = true -> valid_month month = true ->
  (forall resp, net index_url = Some resp -> error_status resp = true) ->
  exists msg, MadridFines_load lib net year month cache w
              = (Fail (MadridError msg), with_sent (index_url :: sent w) w).
Proof.
  intros Hy Hm Hnet.
  destruct (get_url_no_index lib net year month w Hy Hm Hnet) as [msg H].
  exists msg. unfold MadridFines_load. rewrite H. reflexivity.
Qed.

Lemma result_and_world {A} (r : result A * World) o :
  fst r = o -> r = (o, snd r).
Proof. intros <-. apply surjective_pairing. Qed.

Lemma load_needs_index_page_witness :
  let w := snd (MadridFines_load sample_lib net_ok 2025 4 test_app fresh_world) in
  fst (CacheUrl_exists test_app
         (String.append ROOT "/egob/catalogo/210104-403-multas-circulacion-detalle.csv") w)
  = Return true
  /\ exists msg, MadridFines_load sample_lib net_down 2025 4 test_app w
                 = (Fail (MadridError msg), with_sent (index_url :: sent w) w).
Proof.
  cbv zeta. split; [vm_compute; reflexivity|].
  apply load_needs_index_page; [reflexivity|reflexivity|discriminate].
Defined.

(** X19. When [get_url] has found the URL of the CSV, the CSV is not in the
    cache and its download fails (no answer, or a status in 400..599), the
    exception of [requests] leaves [MadridFines.load] as it is: it is not
    turned into a [MadridError]. Two requests were sent and no file was
    written. If the cache cannot even look the CSV up ([exists] raises,
    as for a path that is too long), that exception leaves [load] in the
    same way, after the request for the index page alone. *)
Theorem load_download_failure_escapes lib net year month cache w url :
  fst (get_url lib net year month w) = Ok url ->
  present w (cache_dir cache </> _hash url) = false ->
  (forall resp, net url = Some resp -> error_status resp = true) ->
  match fst (CacheUrl_exists cache url w) with
  | Raise e =>
      MadridFines_load lib net year month cache w
      = (Fail (FromCache e), with_sent (index_url :: sent w) w)
  | Return _ =>
      exists e, is_RequestException e = true
        /\ MadridFines_load lib net year month cache w
           = (Fail (FromCache e), with_sent (url :: index_url :: sent w) w)
  end.
Proof.
  intros Hu Hmiss Hnet. apply result_and_world in Hu.
  destruct (get_url_Ok _ _ _ _ _ _ _ Hu) as (_ & _ & Hw & _).
  unfold MadridFines_load. rewrite Hu, Hw. unfold CacheUrl_exists.
  destruct (exists_cases cache (_hash url) w)
    as [(e & Hs & ->)|[(n & Hn & _)|(_ & _ & Hex)]].
  - cbn [fst]. rewrite (get_stat_error net cache url (with_sent (index_url :: sent w) w) e Hs).
    reflexivity.
  - unfold present in Hmiss. rewrite Hn in Hmiss. discriminate.
  - rewrite Hex. cbn [fst].
    rewrite get_miss by (rewrite Cache_exists_with_sent, Hex; reflexivity).
    cbv zeta. destruct (net url) as [r|] eqn:Hn.
    + rewrite (Hnet r eq_refl). exists (HTTPError (status_code r)). split; reflexivity.
    + exists RequestException. split; reflexivity.
Qed.

Lemma load_download_failure_escapes_witness :
  exists e, is_RequestException e = true
    /\ MadridFines_load sample_lib net_index_only 2025 4 test_app fresh_world
       = (Fail (FromCache e),
          with_sent (sample_csv_url :: index_url :: sent fresh_world) fresh_world).
Proof.
  pose proof (load_download_failure_escapes sample_lib net_index_only 2025 4 test_app
                fresh_world sample_csv_url) as H.
  assert (Hex : fst (CacheUrl_exists test_app sample_csv_url fresh_world) = Return false)
    by (vm_compute; reflexivity).
  rewrite Hex in H. apply H.
  - vm_compute; reflexivity.
  - vm_compute; reflexivity.
  - intros resp E. vm_compute in E. discriminate.
Defined.

Lemma get_hit_any_sent net self url l w :
  present w (cache_dir self </> _hash url) = true ->
  CacheUrl_get net self url (with_sent l w)
  = (fst (Cache_load self (_hash url) w), with_sent l w).
Proof.
  intros Hp. rewrite get_hit by exact Hp. rewrite !Cache_load_spec. reflexivity.
Qed.

(** X20. After a [load] that returned, the next [load] of the same month
    -- the index page being answered as before -- sends one request, to
    the index page, and none for the CSV, whatever the network would
    answer there. It parses the text the first call parsed, with the line
    endings translated as text-mode reading does. *)
Theorem load_again_reads_cache lib net net2 year month cache w df w1 :
  MadridFines_load lib net year month cache w = (Ok df, w1) ->
  net2 index_url = net index_url ->
  exists body,
    read_csv lib body = Ok df
    /\ MadridFines_load lib net2 year month cache w1
       = (read_csv lib (universal_newlines body), with_sent (index_url :: sent w1) w1).
Proof.
  unfold MadridFines_load at 1. intros H Hnet.
  destruct (get_url lib net year month w) as [[url|e] w0] eqn:Hu; [|discriminate].
  destruct (CacheUrl_get net cache url w0) as [[body|e] w0'] eqn:Hg; [|discriminate].
  injection H as Hcsv ->. exists body. split; [exact Hcsv|].
  assert (Hu2 : get_url lib net2 year month w1
                = (Ok url, with_sent (index_url :: sent w1) w1)).
  { destruct (get_url_Ok _ _ _ _ _ _ _ Hu) as (Hy & Hm & _ & r & href & Hr & He & Hs & ->).
    rewrite get_url_spec, Hy, Hm, Hnet, Hr, He, Hs. reflexivity. }
  unfold MadridFines_load. rewrite Hu2.
  assert (Hhit : present w1 (cache_dir cache </> _hash url) = true
                 /\ fst (Cache_load cache (_hash url) w1) = Return (universal_newlines body)).
  { destruct (exists_cases cache (_hash url) w0)
      as [(e & Hs & _)|[(n & He & _)|(_ & _ & Hmiss)]].
    - rewrite (get_stat_error _ _ _ _ _ Hs) in Hg. discriminate.
    - assert (Hp : present w0 (cache_dir cache </> _hash url) = true)
        by (unfold present; rewrite He; reflexivity).
      rewrite (get_hit _ _ _ _ Hp), (Cache_load_entry _ _ _ _ He) in Hg.
      destruct n as [d st|st]; [|discriminate].
      injection Hg as <- <-. split; [exact Hp|].
      rewrite (Cache_load_entry _ _ _ _ He). simpl.
      rewrite (universal_newlines_no_CR _ (universal_newlines_has_no_CR d)). reflexivity.
    - rewrite (get_miss _ _ _ _ Hmiss) in Hg. cbv zeta in Hg.
      destruct (net url) as [r|]; [|discriminate].
      destruct (error_status r); [discriminate|].
      destruct (Cache_set cache (_hash url) (text r) _) as [[[]|e] w2] eqn:Hset;
        [|discriminate].
      injection Hg as <- <-.
      destruct (set_then_load _ _ _ _ _ Hset) as [Hex Hload].
      apply Cache_exists_Return in Hex as (_ & Hex & _).
      rewrite Hload. split; [exact Hex|reflexivity]. }
  destruct Hhit as [Hp Hl].
  rewrite (get_hit_any_sent _ _ _ _ _ Hp), Hl. reflexivity.
Qed.

Lemma load_again_reads_cache_witness :
  let w1 := snd (MadridFines_load sample_lib net_ok 2025 4 test_app fresh_world) in
  exists body,
    read_csv sample_lib body = Ok [sample_row]
    /\ MadridFines_load sample_lib net_index_only 2025 4 test_app w1
       = (read_csv sample_lib (universal_newlines body),
          with_sent (index_url :: sent w1) w1).
Proof.
  cbv zeta.
  apply (load_again_reads_cache sample_lib net_ok net_index_only 2025 4 test_app fresh_world).
  - apply result_and_world. vm_compute; reflexivity.
  - vm_compute; reflexivity.
Defined.

Lemma in_loaded_swapped year m l :
  loaded_ok l -> valid_month m = true -> in_loaded year m l = false.
Proof.
  unfold loaded_ok, in_loaded, valid_month, valid_year. intros Hl Hm.
  induction Hl as [|[mo yr] l [_ Hyr] _ IH]; [reflexivity|]. simpl in *.
  rewrite IH, orb_false_r. apply andb_false_iff. right. lia.
Qed.

Lemma all_months_eq : all_months = [1; 2; 3; 4; 5; 6; 7; 8; 9; 10; 11; 12]%Z.
Proof. reflexivity. Qed.

Lemma all_months_valid : Forall (fun m => valid_month m = true) all_months.
Proof. rewrite all_months_eq. repeat constructor. Qed.

Lemma load_Ok_valid lib net year month cache w df w1 :
  MadridFines_load lib net year month cache w = (Ok df, w1) ->
  valid_year year = true /\ valid_month month = true.
Proof.
  unfold MadridFines_load.
  destruct (get_url lib net year month w) as [[url|e] w0] eqn:Hu; [|discriminate].
  intros _. destruct (get_url_Ok _ _ _ _ _ _ _ Hu) as (Hy & Hm & _). auto.
Qed.

Lemma loaded_ok_snoc l m year :
  loaded_ok l -> valid_month m = true -> valid_year year = true ->
  loaded_ok (l ++ [(m, year)]).
Proof.
  intros Hl Hm Hy. apply Forall_app. split; [exact Hl|]. repeat constructor; assumption.
Qed.

Lemma add_months_cons lib net year m rest self w :
  add_months lib net year (m :: rest) self w
  = if negb (in_loaded year m (loaded self)) then
      match MadridFines_load lib net year m (cacheurl self) w with
      | (Fail e, w1) => (Fail e, self, w1)
      | (Ok df, w1) =>
          match clean_frame lib df with
          | Fail e => (Fail e, self, w1)
          | Ok df' =>
              add_months lib net year rest
                {| cacheurl := cacheurl self;
                   data := data self ++ df';
                   loaded := loaded self ++ [(m, year)] |} w1
          end
      end
    else add_months lib net year rest self w.
Proof. reflexivity. Qed.

(** What the loop of [add] leaves behind, whether it ends or raises. *)
Lemma add_months_progress lib net year months : forall self w r self' w',
  loaded_ok (loaded self) ->
  Forall (fun m => valid_month m = true) months ->
  add_months lib net year months self w = (r, self', w') ->
  exists done frames,
    length frames = length done
    /\ loaded self' = loaded self ++ map (fun m => (m, year)) done
    /\ data self' = data self ++ concat frames
    /\ cacheurl self' = cacheurl self
    /\ loaded_ok (loaded self')
    /\ match r with
       | Ok _ => done = months
       | Fail _ => exists failed rest, months = done ++ failed :: rest
       end.
Proof.
  induction months as [|m months IH]; intros self w r self' w' Hok Hms;
    [cbn [add_months]|rewrite add_months_cons].
  - intros [= <- <- <-]. exists [], []. rewrite !app_nil_r. auto 10.
  - apply Forall_cons in Hms as [Hm Hms].
    rewrite (in_loaded_swapped year m _ Hok Hm). cbn [negb].
    destruct (MadridFines_load lib net year m (cacheurl self) w) as [[df|e] w1] eqn:Hl.
    + destruct (clean_frame lib df) as [df'|e] eqn:Hc.
      * destruct (load_Ok_valid _ _ _ _ _ _ _ _ Hl) as [Hy _].
        intros H. apply IH in H as (done & frames & Hlen & Hld & Hd & Hc' & Hok' & Hr);
          [|exact (loaded_ok_snoc _ _ _ Hok Hm Hy)|exact Hms].
        simpl in Hld, Hd, Hc'. exists (m :: done), (df' :: frames). simpl.
        split; [congruence|].
        split; [rewrite Hld, <- app_assoc; reflexivity|].
        split; [rewrite Hd, <- app_assoc; reflexivity|].
        split; [exact Hc'|]. split; [exact Hok'|].
        destruct r as [[]|e]; [rewrite Hr; reflexivity|].
        destruct Hr as (failed & rest & ->). exists failed, rest. reflexivity.
      * intros [= <- <- <-]. exists [], []. rewrite !app_nil_r. simpl. eauto 10.
    + intros [= <- <- <-]. exists [], []. rewrite !app_nil_r. simpl. eauto 10.
Qed.

(** X21. On an object whose [loaded] list holds (month, year) pairs in
    range, [add] with a month outside 1..12, or with a year outside
    2017..2025, raises [MadridError] and changes neither the object nor
    the world. [add] checks the month first, so with both out of range the
    message is the one about the month, the other way round from
    [get_url]. *)
Theorem add_rejects_invalid_date lib net self year month w :
  loaded_ok (loaded self) ->
  valid_year year && match month with Some m => valid_month m | None => true end = false ->
  MadridFines_add lib net self year month w
  = (Fail (MadridError
             match month with
             | Some m =>
                 if valid_month m
                 then String.append "Año fuera de rango: " (str_int year)
                 else String.append "Mes inválido: " (str_int m)
             | None => String.append "Año fuera de rango: " (str_int year)
             end), self, w).
Proof.
  intros Hok H. unfold MadridFines_add. destruct month as [m|].
  - destruct (valid_month m) eqn:Hm; [|reflexivity].
    rewrite andb_true_r in H. rewrite add_months_cons.
    rewrite (in_loaded_swapped year m _ Hok Hm). cbn [negb].
    unfold MadridFines_load. rewrite get_url_spec, H. reflexivity.
  - rewrite andb_true_r in H. rewrite all_months_eq, add_months_cons.
    rewrite (in_loaded_swapped year 1 _ Hok eq_refl). cbn [negb].
    unfold MadridFines_load. rewrite get_url_spec, H. reflexivity.
Qed.

Lemma add_rejects_invalid_date_witness :
  MadridFines_add sample_lib net_ok empty_fines 2030 (Some 13) fresh_world
  = (Fail (MadridError "Mes inválido: 13"), empty_fines, fresh_world)
  /\ MadridFines_add sample_lib net_ok empty_fines 2030 None fresh_world
     = (Fail (MadridError "Año fuera de rango: 2030"), empty_fines, fresh_world).
Proof.
  split.
  - exact (add_rejects_invalid_date sample_lib net_ok empty_fines 2030 (Some 13) fresh_world
             (List.Forall_nil _) eq_refl).
  - exact (add_rejects_invalid_date sample_lib net_ok empty_fines 2030 None fresh_world
             (List.Forall_nil _) eq_refl).
Defined.

Lemma add_result_eta (r : result unit * MadridFines * World) o :
  fst (fst r) = o -> r = (o, snd (fst r), snd r).
Proof. intros <-. destruct r as [[o self] w]. reflexivity. Qed.

Lemma add_progress lib net self year month w r self' w' :
  loaded_ok (loaded self) ->
  MadridFines_add lib net self year month w = (r, self', w') ->
  exists done frames,
    length frames = length done
    /\ loaded self' = loaded self ++ map (fun m => (m, year)) done
    /\ data self' = data self ++ concat frames
    /\ cacheurl self' = cacheurl self
    /\ loaded_ok (loaded self')
    /\ match r with
       | Ok _ => done = requested_months month
       | Fail _ => exists failed rest, requested_months month = done ++ failed :: rest
       end.
Proof.
  intros Hok. unfold MadridFines_add. destruct month as [m|].
  - destruct (valid_month m) eqn:Hm.
    + apply add_months_progress; [exact Hok|]. repeat constructor. exact Hm.
    + intros [= <- <- <-]. exists [], []. rewrite !app_nil_r. simpl.
      repeat split; auto. exists m, []. reflexivity.
  - apply add_months_progress; [exact Hok|exact all_months_valid].
Qed.

(** X22. On an object whose [loaded] list holds (month, year) pairs in
    range, an [add] that returns has appended [(m, year)] to [loaded], and
    one frame to the data, for every month it was asked for: the
    one month given, or 1 to 12 in this order. This holds whether or not
    these months were loaded before: the test [(year, m) not in loaded]
    never skips one, since the list holds the pairs the other way round. *)
Theorem add_appends_every_month lib net self year month w self' w' :
  loaded_ok (loaded self) ->
  MadridFines_add lib net self year month w = (Ok tt, self', w') ->
  loaded self' = loaded self ++ map (fun m => (m, year)) (requested_months month)
  /\ loaded_ok (loaded self')
  /\ cacheurl self' = cacheurl self
  /\ exists frames,
       length frames = length (requested_months month)
       /\ data self' = data self ++ concat frames.
Proof.
  intros Hok H.
  destruct (add_progress _ _ _ _ _ _ _ _ _ Hok H)
    as (done & frames & Hlen & Hld & Hd & Hc & Hok' & ->).
  repeat split; auto. exists frames. auto.
Qed.

Lemma add_appends_every_month_witness :
  let r1 := MadridFines_add sample_lib net_ok empty_fines 2025 (Some 4) fresh_world in
  let r2 := MadridFines_add sample_lib net_ok (snd (fst r1)) 2025 (Some 4) (snd r1) in
  fst (fst r1) = Ok tt /\ fst (fst r2) = Ok tt
  /\ loaded (snd (fst r2)) = [(4, 2025); (4, 2025)]%Z.
Proof.
  cbv zeta.
  assert (H1 : fst (fst (MadridFines_add sample_lib net_ok empty_fines 2025 (Some 4)
                           fresh_world)) = Ok tt) by (vm_compute; reflexivity).
  destruct (add_appends_every_month sample_lib net_ok empty_fines 2025 (Some 4) fresh_world
              _ _ (List.Forall_nil _) (add_result_eta _ _ H1))
    as (Hl1 & Hok1 & _).
  set (r1 := MadridFines_add sample_lib net_ok empty_fines 2025 (Some 4) fresh_world) in *.
  assert (H2 : fst (fst (MadridFines_add sample_lib net_ok (snd (fst r1)) 2025 (Some 4)
                           (snd r1))) = Ok tt) by (vm_compute; reflexivity).
  destruct (add_appends_every_month _ _ _ _ _ _ _ _ Hok1 (add_result_eta _ _ H2))
    as (Hl2 & _).
  split; [exact H1|]. split; [exact H2|]. rewrite Hl2, Hl1. reflexivity.
Defined.

(** X23. On an object whose [loaded] list holds (month, year) pairs in
    range, an [add] that raises has kept what it did before: the months
    in front of the one that failed are in [loaded], with one frame each
    in the data, and the cache is the same object. *)
Theorem add_failure_keeps_progress lib net self year month w e self' w' :
  loaded_ok (loaded self) ->
  MadridFines_add lib net self year month w = (Fail e, self', w') ->
  exists done failed rest frames,
    requested_months month = done ++ failed :: rest
    /\ loaded self' = loaded self ++ map (fun m => (m, year)) done
    /\ length frames = length done
    /\ data self' = data self ++ concat frames
    /\ cacheurl self' = cacheurl self
    /\ loaded_ok (loaded self').
Proof.
  intros Hok H.
  destruct (add_progress _ _ _ _ _ _ _ _ _ Hok H)
    as (done & frames & Hlen & Hld & Hd & Hc & Hok' & failed & rest & Hm).
  exists done, failed, rest, frames. auto 10.
Qed.

Lemma add_failure_keeps_progress_witness :
  let r := MadridFines_add two_months_lib net_ok empty_fines 2025 None fresh_world in
  fst (fst r) = Fail (MadridError "No se encontró CSV para 2025-03")
  /\ loaded (snd (fst r)) = [(1, 2025); (2, 2025)]%Z
  /\ exists done failed rest frames,
       requested_months None = done ++ failed :: rest
       /\ loaded (snd (fst r)) = loaded empty_fines ++ map (fun m => (m, 2025%Z)) done
       /\ length frames = length done
       /\ data (snd (fst r)) = data empty_fines ++ concat frames
       /\ cacheurl (snd (fst r)) = cacheurl empty_fines
       /\ loaded_ok (loaded (snd (fst r))).
Proof.
  cbv zeta.
  assert (H : fst (fst (MadridFines_add two_months_lib net_ok empty_fines 2025 None
                          fresh_world))
              = Fail (MadridError "No se encontró CSV para 2025-03"))
    by (vm_compute; reflexivity).
  split; [exact H|]. split; [vm_compute; reflexivity|].
  exact (add_failure_keeps_progress two_months_lib net_ok empty_fines 2025 None fresh_world
           _ _ _ (List.Forall_nil _) (add_result_eta _ _ H)).
Defined.

(** X24. Every object made by the constructor and changed by calls of
    [add], returning or raising, has a [loaded] list of (month, year)
    pairs with the month in 1..12 and the year in 2017..2025; on such an
    object the membership test of [add], which looks for (year, month),
    is false for every month in 1..12. *)
Theorem loaded_holds_month_year_pairs lib self :
  reachable lib self ->
  loaded_ok (loaded self)
  /\ forall year m, valid_month m = true -> in_loaded year m (loaded self) = false.
Proof.
  intros Hr.
  assert (Hok : loaded_ok (loaded self)).
  { induction Hr as [app obs w self w' Hi|net self year month w r self' w' _ IH Ha].
    - unfold MadridFines_init in Hi.
      destruct (CacheUrl_init app obs _ w) as [[c|e] w1]; [|discriminate].
      injection Hi as <- _. constructor.
    - destruct (add_progress _ _ _ _ _ _ _ _ _ IH Ha) as (_ & _ & _ & _ & _ & _ & Hok & _).
      exact Hok. }
  split; [exact Hok|]. intros year m Hm. exact (in_loaded_swapped year m _ Hok Hm).
Qed.

Lemma loaded_holds_month_year_pairs_witness :
  let s0 := {| cacheurl := {| app_name := "test_app"; obsolescence := 10;
                              cache_dir := ["home"; "user"; ".my_cache"; "test_app"] |};
               data := []; loaded := [] |} in
  let w0 := snd (MadridFines_init sample_lib "test_app" 10 bare_world) in
  let s := snd (fst (MadridFines_add sample_lib net_ok s0 2025 (Some 4) w0)) in
  fst (MadridFines_init sample_lib "test_app" 10 bare_world) = Ok s0
  /\ loaded s = [(4, 2025)]
  /\ loaded_ok (loaded s)
  /\ forall year m, valid_month m = true -> in_loaded year m (loaded s) = false.
Proof.
  cbv zeta.
  assert (H0 : fst (MadridFines_init sample_lib "test_app" 10 bare_world)
               = Ok {| cacheurl := {| app_name := "test_app"; obsolescence := 10;
                                      cache_dir := ["home"; "user"; ".my_cache"; "test_app"] |};
                       data := []; loaded := [] |})
    by (vm_compute; reflexivity).
  split; [exact H0|]. split; [vm_compute; reflexivity|].
  apply (loaded_holds_month_year_pairs sample_lib).
  eapply reach_add; [|apply add_result_eta; reflexivity].
  exact (reach_init sample_lib "test_app" 10 bare_world _ _ (result_and_world _ _ H0)).
Defined.
